(** * fad_project: the ADC/DAC sampling pipeline and the FFT masking algorithm

    A shallow embedding of [src/main/fad_adc.c] (circular buffer pair, timer
    interrupt handler, initialisation) and of
    [src/fad_algorithms/algo_masking.c] (dominant-frequency tracking), with
    the properties of the design document stated over the embedded code.

    Conventions.
    - C integers are [Z]; a store into a [uint16_t] or [uint8_t] object is
      written out with [u16] / [u8]; [/] and [%] on [int] are [Z.quot] and
      [Z.rem], and a zero divisor is a fault.
    - A pointer returned by [calloc]/[malloc] is [option]: [None] is [NULL].
      Going through [NULL] or outside an array is a fault, not a value.
    - C [float] is IEEE binary32 and [double] is binary64, both carried by
      [spec_float] with the operations of [SpecFloat] at the two precisions.
    - Calls that leave the translation unit (heap, drivers, logging, work
      dispatch) are recorded, oldest first, in a call history. *)

From Stdlib Require Import ZArith List Lia Bool Ascii String.
From Stdlib Require Import Floats.SpecFloat.
From stdpp Require Import base option list.

Local Open Scope Z_scope.

(** ** Faults and the state-and-fault monad *)

Inductive fault : Set :=
  | NullDereference
  | OutOfBounds
  | DivisionByZero.

Inductive result (A : Type) : Type :=
  | Ok (a : A)
  | Fault (f : fault).
Arguments Ok {A} a.
Arguments Fault {A} f.

Definition M (S A : Type) : Type := S -> result (A * S).

Definition m_ret {S A} (a : A) : M S A := fun s => Ok (a, s).

Definition m_bind {S A B} (m : M S A) (k : A -> M S B) : M S B :=
  fun s => match m s with
           | Ok (a, s') => k a s'
           | Fault f => Fault f
           end.

Definition m_get {S} : M S S := fun s => Ok (s, s).
Definition m_modify {S} (f : S -> S) : M S unit := fun s => Ok (tt, f s).
Definition m_fail {S A} (f : fault) : M S A := fun _ => Fault f.

Declare Scope fad_scope.
Delimit Scope fad_scope with fad.
Notation "'let*' x ':=' m 'in' k" := (m_bind m (fun x => k))
  (at level 10, x name, m at level 100, k at level 200) : fad_scope.
Notation "m ';;;' k" := (m_bind m (fun _ => k))
  (at level 100, k at level 200, right associativity) : fad_scope.
Local Open Scope fad_scope.

(** Fallible computations that do not touch the state. *)
Definition r_bind {A B} (r : result A) (k : A -> result B) : result B :=
  match r with
  | Ok a => k a
  | Fault f => Fault f
  end.

Notation "'let?' x ':=' r 'in' k" := (r_bind r (fun x => k))
  (at level 10, x name, r at level 100, k at level 200) : fad_scope.

Definition lift {S A} (r : result A) : M S A :=
  fun s => match r with
           | Ok a => Ok (a, s)
           | Fault f => Fault f
           end.

(** ** Pointers and arrays *)

(** [*p] *)
Definition deref {A} (p : option A) : result A :=
  match p with
  | Some a => Ok a
  | None => Fault NullDereference
  end.

Definition in_bounds {A} (l : list A) (i : Z) : bool :=
  (0 <=? i) && (i <? Z.of_nat (length l)).

(** [l[i]] as an rvalue. *)
Definition arr_load {A} (l : list A) (i : Z) : result A :=
  if in_bounds l i
  then match l !! Z.to_nat i with
       | Some v => Ok v
       | None => Fault OutOfBounds
       end
  else Fault OutOfBounds.

(** [l[i] = v]; the result is the array after the store. *)
Definition arr_store {A} (l : list A) (i : Z) (v : A) : result (list A) :=
  if in_bounds l i
  then Ok (<[Z.to_nat i := v]> l)
  else Fault OutOfBounds.

(** [for (...) body], the iterations listed in order. *)
Fixpoint for_each {S} (ks : list Z) (body : Z -> M S unit) : M S unit :=
  match ks with
  | [] => m_ret tt
  | k :: ks' => body k ;;; for_each ks' body
  end.

(** ** Machine integers *)

Definition u8 (z : Z) : Z := z mod 256.
Definition u16 (z : Z) : Z := z mod 65536.
Arguments u8 : simpl never.
Arguments u16 : simpl never.

(** [a % b] on C [int]s. *)
Definition c_rem {S} (a b : Z) : M S Z :=
  if b =? 0 then m_fail DivisionByZero else m_ret (Z.rem a b).

(** ** ESP-IDF status codes *)

Definition esp_err_t : Set := Z.
Definition ESP_OK : esp_err_t := 0.
Definition ESP_ERR_NO_MEM : esp_err_t := 257.

(** ** fad_adc.c *)

Module Adc.

(** The constants of [fad_defs.h] and the depth of the work queue of
    [fad_app_core]; none of the three is fixed by [fad_adc.c]. *)
Record fad_defs : Set := {
  ADC_BUFFER_SIZE : Z;
  adc_algo_size : Z;
  WORK_QUEUE_LEN : nat
}.

(** [enum { ADC_BUFFER_READY_EVT }] *)
Definition ADC_BUFFER_READY_EVT : Z := 0.

(** [struct adc_buffer_rdy_param]: both fields are [uint16_t]. *)
Record adc_buffer_rdy_param : Set := {
  adc_pos : Z;
  dac_pos : Z
}.

(** A message of the work queue: the event number and the copied parameters
    (the handler is always [adc_hdl_evt]). *)
Record work_item : Set := {
  wi_evt : Z;
  wi_params : adc_buffer_rdy_param
}.

Inductive algo : Set := Algo_white.

(** Calls that leave [fad_adc.c]. *)
Inductive call : Set :=
  | Call_calloc (n size : Z)
  | Call_malloc (size : Z)
  | Call_free
  | Call_fad_app_work_dispatch (evt : Z) (p : adc_buffer_rdy_param)
  | Call_adc1_get_raw (ret : Z)
  | Call_dac_output (pos : Z) (sample : Z)
  | Call_adc1_config_width
  | Call_adc1_config_channel_atten
  | Call_timer_init
  | Call_timer_set_counter_value
  | Call_timer_enable_intr
  | Call_timer_set_alarm_value
  | Call_timer_isr_callback_add
  | Call_timer_start
  | Call_algo_white_init
  | Call_algo_function (adc_off dac_off : Z)
  | Call_ESP_LOGI (tag msg : string).

Definition ADC_TAG : string := "ADC".

(** The file-scope objects of [fad_adc.c], the work queue of [fad_app_core]
    and the call history. *)
Record globals : Type := {
  adc_buffer : option (list Z);
  dac_buffer : option (list Z);
  adc_buffer_pos : Z;
  dac_buffer_pos : Z;
  algo_function : option algo;
  work_queue : list work_item;
  calls : list call
}.

(** Objects with static storage duration start out zero. *)
Definition power_on : globals :=
  {| adc_buffer := None; dac_buffer := None;
     adc_buffer_pos := 0; dac_buffer_pos := 0;
     algo_function := None; work_queue := []; calls := [] |}.

Definition set_adc_buffer (b : option (list Z)) (g : globals) : globals :=
  {| adc_buffer := b; dac_buffer := dac_buffer g;
     adc_buffer_pos := adc_buffer_pos g; dac_buffer_pos := dac_buffer_pos g;
     algo_function := algo_function g; work_queue := work_queue g;
     calls := calls g |}.

Definition set_dac_buffer (b : option (list Z)) (g : globals) : globals :=
  {| adc_buffer := adc_buffer g; dac_buffer := b;
     adc_buffer_pos := adc_buffer_pos g; dac_buffer_pos := dac_buffer_pos g;
     algo_function := algo_function g; work_queue := work_queue g;
     calls := calls g |}.

Definition set_adc_buffer_pos (p : Z) (g : globals) : globals :=
  {| adc_buffer := adc_buffer g; dac_buffer := dac_buffer g;
     adc_buffer_pos := u16 p; dac_buffer_pos := dac_buffer_pos g;
     algo_function := algo_function g; work_queue := work_queue g;
     calls := calls g |}.

Definition set_dac_buffer_pos (p : Z) (g : globals) : globals :=
  {| adc_buffer := adc_buffer g; dac_buffer := dac_buffer g;
     adc_buffer_pos := adc_buffer_pos g; dac_buffer_pos := u16 p;
     algo_function := algo_function g; work_queue := work_queue g;
     calls := calls g |}.

Definition set_algo_function (a : option algo) (g : globals) : globals :=
  {| adc_buffer := adc_buffer g; dac_buffer := dac_buffer g;
     adc_buffer_pos := adc_buffer_pos g; dac_buffer_pos := dac_buffer_pos g;
     algo_function := a; work_queue := work_queue g;
     calls := calls g |}.

Definition set_work_queue (q : list work_item) (g : globals) : globals :=
  {| adc_buffer := adc_buffer g; dac_buffer := dac_buffer g;
     adc_buffer_pos := adc_buffer_pos g; dac_buffer_pos := dac_buffer_pos g;
     algo_function := algo_function g; work_queue := q;
     calls := calls g |}.

Definition record_call (c : call) (g : globals) : globals :=
  {| adc_buffer := adc_buffer g; dac_buffer := dac_buffer g;
     adc_buffer_pos := adc_buffer_pos g; dac_buffer_pos := dac_buffer_pos g;
     algo_function := algo_function g; work_queue := work_queue g;
     calls := calls g ++ [c] |}.

Definition emit (c : call) : M globals unit := m_modify (record_call c).

(** *** The heap *)

(** [calloc(n, size)]: [NULL], or [n] zeroed elements. *)
Definition calloc (n size : Z) (succeeds : bool) : M globals (option (list Z)) :=
  emit (Call_calloc n size) ;;;
  m_ret (if succeeds then Some (replicate (Z.to_nat n) 0) else None).

(** [malloc(size)]: [NULL] or a fresh object. *)
Definition malloc (size : Z) (succeeds : bool) : M globals (option unit) :=
  emit (Call_malloc size) ;;;
  m_ret (if succeeds then Some tt else None).

Definition free : M globals unit := emit Call_free.

(** *** Array accesses through the buffer pointers *)

(** [buf[i]] as an rvalue. *)
Definition load (buf : option (list Z)) (i : Z) : M globals Z :=
  lift (let? l := deref buf in arr_load l i).

(** [buf[i] = v]; the result is the array after the store. *)
Definition store (buf : option (list Z)) (i v : Z) : M globals (list Z) :=
  lift (let? l := deref buf in arr_store l i v).

(** *** Collaborators declared in headers that are not part of the sources *)

(** Modelled from the spec: [fad_app_work_dispatch] of [fad_app_core.h] is
    missing.  Section 4.3 gives it as [try_enqueue(event) -> bool] on a
    bounded FIFO: non-blocking, the event is appended when there is room and
    refused when the queue is full. *)
Definition fad_app_work_dispatch (d : fad_defs) (evt : Z)
    (p : adc_buffer_rdy_param) : M globals bool :=
  emit (Call_fad_app_work_dispatch evt p) ;;;
  let* g := m_get in
  if (length (work_queue g) <? WORK_QUEUE_LEN d)%nat
  then m_modify (set_work_queue
                   (work_queue g ++ [{| wi_evt := evt; wi_params := p |}])) ;;;
       m_ret true
  else m_ret false.

(** Modelled from the spec: [dac_output] of [fad_dac.h] is missing.  Section
    4.2, step 3: it emits [buffer.output[output_cursor]] to the analog
    output. *)
Definition dac_output (buf : option (list Z)) (pos : Z) : M globals unit :=
  let* v := load buf pos in
  emit (Call_dac_output pos v).

(** *** adc_hdl_evt *)

(** The algorithm is reached through the pointer [algo_function], with the
    two buffers offset by the positions of the event; what it writes is a
    matter of the algorithm, not of this file.  Here the call is recorded
    and what the algorithm does is left out: in the transition system below
    its writes to the output buffer are steps of their own.  [Worker]
    further down has the same function with the algorithm running inside
    the call. *)
Definition adc_hdl_evt (evt : Z) (params : adc_buffer_rdy_param)
    : M globals unit :=
  if evt =? ADC_BUFFER_READY_EVT then
    emit (Call_ESP_LOGI ADC_TAG "Buffer ready") ;;;
    let* g := m_get in
    let* _ := lift (deref (algo_function g)) in
    emit (Call_algo_function (adc_pos params) (dac_pos params))
  else m_ret tt.

(** *** adc_buffer_init *)

Record alloc_env : Set := {
  adc_calloc_succeeds : bool;
  dac_calloc_succeeds : bool
}.

Definition adc_buffer_init (d : fad_defs) (e : alloc_env) : M globals esp_err_t :=
  let* p := calloc (ADC_BUFFER_SIZE d) 2 (adc_calloc_succeeds e) in
  m_modify (set_adc_buffer p) ;;;
  match p with
  | None => m_ret ESP_ERR_NO_MEM
  | Some _ =>
      let* q := calloc (ADC_BUFFER_SIZE d) 1 (dac_calloc_succeeds e) in
      m_modify (set_dac_buffer q) ;;;
      match q with
      | None => m_ret ESP_ERR_NO_MEM
      | Some _ =>
          m_modify (set_adc_buffer_pos 0) ;;;
          m_modify (set_dac_buffer_pos (ADC_BUFFER_SIZE d - adc_algo_size d)) ;;;
          m_ret ESP_OK
      end
  end.

(** *** adc_timer_intr_handler *)

(** What the environment hands to one run of the handler: whether [malloc]
    finds memory, and the value read by [adc1_get_raw]. *)
Record isr_env : Set := {
  malloc_succeeds : bool;
  adc_raw : Z
}.

Definition sizeof_adc_evt_params : Z := 4.

Definition adc_timer_intr_handler (d : fad_defs) (e : isr_env) : M globals bool :=
  let yield := false in
  let* g := m_get in
  let* r := c_rem (adc_buffer_pos g) (adc_algo_size d) in
  (if r =? 0 then
     let* params := malloc sizeof_adc_evt_params (malloc_succeeds e) in
     match params with
     | None => m_fail NullDereference (* params->buff_pos.adc_pos = ... *)
     | Some _ =>
         let p := {| adc_pos := u16 (adc_buffer_pos g);
                     dac_pos := u16 (dac_buffer_pos g) |} in
         let* _ := fad_app_work_dispatch d ADC_BUFFER_READY_EVT p in
         free
     end
   else m_ret tt) ;;;
  emit (Call_adc1_get_raw (adc_raw e)) ;;;
  let* buf := store (adc_buffer g) (adc_buffer_pos g) (u16 (adc_raw e)) in
  m_modify (set_adc_buffer (Some buf)) ;;;
  dac_output (dac_buffer g) (dac_buffer_pos g) ;;;
  let* a := c_rem (adc_buffer_pos g + 1) (ADC_BUFFER_SIZE d) in
  m_modify (set_adc_buffer_pos a) ;;;
  let* b := c_rem (dac_buffer_pos g + 1) (ADC_BUFFER_SIZE d) in
  m_modify (set_dac_buffer_pos b) ;;;
  m_ret yield.

(** *** adc_timer_init, adc_init, adc_timer_start *)

(** The status returned by each call into [driver/timer.h]. *)
Record timer_env : Set := {
  timer_init_ret : esp_err_t;
  timer_set_counter_value_ret : esp_err_t;
  timer_enable_intr_ret : esp_err_t;
  timer_set_alarm_value_ret : esp_err_t;
  timer_isr_callback_add_ret : esp_err_t;
  timer_start_ret : esp_err_t
}.

(** A driver call: recorded, and answered by the environment. *)
Definition driver (c : call) (ret : esp_err_t) : M globals esp_err_t :=
  emit c ;;; m_ret ret.

Definition adc_timer_init (t : timer_env) : M globals esp_err_t :=
  let* err := driver Call_timer_init (timer_init_ret t) in
  let* err := driver Call_timer_set_counter_value (timer_set_counter_value_ret t) in
  let* err := driver Call_timer_enable_intr (timer_enable_intr_ret t) in
  let* err := driver Call_timer_set_alarm_value (timer_set_alarm_value_ret t) in
  let* err := driver Call_timer_isr_callback_add (timer_isr_callback_add_ret t) in
  m_ret err.

Definition algo_white_init : M globals unit :=
  emit Call_algo_white_init ;;;
  m_modify (set_algo_function (Some Algo_white)).

Definition adc_init (d : fad_defs) (e : alloc_env) (t : timer_env)
    : M globals esp_err_t :=
  emit Call_adc1_config_width ;;;
  emit Call_adc1_config_channel_atten ;;;
  let* ret := adc_buffer_init d e in
  let* ret := adc_timer_init t in
  algo_white_init ;;;
  m_ret ret.

Definition adc_timer_start (t : timer_env) : M globals esp_err_t :=
  let* ret := driver Call_timer_start (timer_start_ret t) in
  m_ret ret.

(** *** The pipeline as a transition system *)

(** Between two runs of the interrupt handler the worker context may take a
    message off the work queue and run [adc_hdl_evt] on it, and the
    algorithm called from there may write samples of the output buffer. *)
Inductive label : Set :=
  | L_tick (e : isr_env)
  | L_dequeue
  | L_algo_write (pos : Z) (sample : Z).

Inductive step (d : fad_defs) : globals -> label -> globals -> Prop :=
  | step_tick e g y g' :
      adc_timer_intr_handler d e g = Ok (y, g') ->
      step d g (L_tick e) g'
  | step_dequeue g w q g' :
      work_queue g = w :: q ->
      adc_hdl_evt (wi_evt w) (wi_params w) (set_work_queue q g) = Ok (tt, g') ->
      step d g L_dequeue g'
  | step_algo_write g buf pos sample :
      dac_buffer g = Some buf ->
      0 <= pos < Z.of_nat (length buf) ->
      step d g (L_algo_write pos sample)
        (set_dac_buffer (Some (<[Z.to_nat pos := u8 sample]> buf)) g).

(** The states of a pipeline brought up by an [adc_init] whose
    [adc_buffer_init] succeeded, with the labels that led there, most recent
    first. *)
Inductive reachable (d : fad_defs) : list label -> globals -> Prop :=
  | reach_init e t r g0 g :
      adc_buffer_init d e power_on = Ok (ESP_OK, g0) ->
      adc_init d e t power_on = Ok (r, g) ->
      reachable d [] g
  | reach_step h g l g' :
      reachable d h g ->
      step d g l g' ->
      reachable d (l :: h) g'.

(** [n] consecutive runs of the handler, fed from a stream of inputs. *)
Fixpoint ticks (d : fad_defs) (es : list isr_env) : M globals unit :=
  match es with
  | [] => m_ret tt
  | e :: es' => adc_timer_intr_handler d e ;;; ticks d es'
  end.

End Adc.

(** ** fad_adc.c: the worker side, with the algorithm inside the call *)

Module Worker.
Import Adc.

(** The function behind [algo_function] is not part of this file: it is a
    parameter here.  It is handed the two buffers from the given pointers
    on, and either faults or returns them as it leaves them. *)
Definition algo_func_t : Type :=
  list Z -> list Z -> result (list Z * list Z).

(** [buf + pos], as the array from [pos] on. *)
Definition offset (buf : option (list Z)) (pos : Z) : result (list Z) :=
  let? l := deref buf in
  if (0 <=? pos) && (pos <=? Z.of_nat (length l))
  then Ok (drop (Z.to_nat pos) l)
  else Fault OutOfBounds.

(** The array behind [buf] once the part from [pos] on holds [v]. *)
Definition write_back (buf : option (list Z)) (pos : Z) (v : list Z)
    : option (list Z) :=
  match buf with
  | Some l => Some (take (Z.to_nat pos) l ++ v)
  | None => None
  end.

Definition adc_hdl_evt (algo : algo_func_t) (evt : Z)
    (params : adc_buffer_rdy_param) : M globals unit :=
  if evt =? ADC_BUFFER_READY_EVT then
    emit (Call_ESP_LOGI ADC_TAG "Buffer ready") ;;;
    let* g := m_get in
    let* adc_buff := lift (offset (adc_buffer g) (adc_pos params)) in
    let* dac_buff := lift (offset (dac_buffer g) (dac_pos params)) in
    let* _ := lift (deref (algo_function g)) in
    emit (Call_algo_function (adc_pos params) (dac_pos params)) ;;;
    let* r := lift (algo adc_buff dac_buff) in
    m_modify (set_adc_buffer
                (write_back (adc_buffer g) (adc_pos params) (fst r))) ;;;
    m_modify (set_dac_buffer
                (write_back (dac_buffer g) (dac_pos params) (snd r)))
  else m_ret tt.

End Worker.

(** ** IEEE arithmetic of C [float] and [double] *)

Module Ieee.

(** Rounding to binary32 (conversion to [float]) and to binary64 (conversion
    to [double], exact on every [float]). *)
Definition to_float (x : spec_float) : spec_float :=
  match x with
  | S754_finite s m e => binary_round 24 128 s m e
  | _ => x
  end.

Definition to_double (x : spec_float) : spec_float :=
  match x with
  | S754_finite s m e => binary_round 53 1024 s m e
  | _ => x
  end.

(** [(float) n] and [(double) n] for an integer [n]. *)
Definition float_of_int (n : Z) : spec_float := binary_normalize 24 128 n 0 false.
Definition double_of_int (n : Z) : spec_float := binary_normalize 53 1024 n 0 false.

Definition d_add : spec_float -> spec_float -> spec_float := SFadd 53 1024.
Definition d_mul : spec_float -> spec_float -> spec_float := SFmul 53 1024.
Definition d_div : spec_float -> spec_float -> spec_float := SFdiv 53 1024.

(** [sqrt(x)] of [math.h]. *)
Definition c_sqrt : spec_float -> spec_float := SFsqrt 53 1024.

(** [pow(x, 2)] of [math.h], which is [x * x]. *)
Definition c_pow_2 (x : spec_float) : spec_float := d_mul x x.

(** [a > b] *)
Definition f_gt (a b : spec_float) : bool := SFltb b a.

Definition f_zero : spec_float := S754_zero false.
Definition d_one : spec_float := double_of_int 1.

Definition is_finite (x : spec_float) : bool :=
  match x with
  | S754_zero _ | S754_finite _ _ _ => true
  | _ => false
  end.

Definition is_pos_infinity (x : spec_float) : bool :=
  match x with
  | S754_infinity false => true
  | _ => false
  end.

End Ieee.

(** ** algo_masking.c *)

Module Masking.
Import Ieee.

(** Modelled from the spec: [fft_config_t] of [fft.h] is missing.  Section 3
    gives the plan as a transform size with input and output scratch arrays
    of samples; the code reads the fields [size], [input] and [output]. *)
Record fft_config_t : Set := {
  size : Z;
  input : list spec_float;
  output : list spec_float
}.

(** The [algo_template_params] member of [fad_algo_init_params_t]; the type
    is declared in a header outside the sources, and [algo_masking_init]
    reads these two fields of it. *)
Record fad_algo_init_params_t : Set := {
  read_size : Z;
  period : Z
}.

(** Calls that leave [algo_masking.c]; [fft.h] also offers [fft_execute] and
    [fft_destroy]. *)
Inductive call : Set :=
  | Call_fft_init (n : Z)
  | Call_fft_execute
  | Call_fft_destroy
  | Call_ESP_LOGI (tag msg : string).

Definition ALGO_TAG : string := "ALGO_MASKING".

(** The file-scope objects of [algo_masking.c], the plan [real_fft_plan] the
    code refers to without defining it, and the call history. *)
Record globals : Set := {
  s_algo_template_read_size : Z;
  s_algo_sampling_freq : Z;
  s_algo_total_time : spec_float;
  s_algo_max_magnitude : spec_float;
  s_algo_fundamental_freq : spec_float;
  s_period : Z;
  switching_voltage : Z;
  real_fft_plan : option fft_config_t;
  calls : list call
}.

(** The initialisers of the file-scope objects, for a given plan pointer.
    The quotient that initialises [s_algo_total_time] has two [int]
    operands. *)
Definition static_init (plan : option fft_config_t) : globals :=
  let s_algo_template_read_size := 2048 in
  let s_algo_sampling_freq := 40000 in
  {| s_algo_template_read_size := s_algo_template_read_size;
     s_algo_sampling_freq := s_algo_sampling_freq;
     s_algo_total_time :=
       float_of_int (Z.quot s_algo_template_read_size s_algo_sampling_freq);
     s_algo_max_magnitude := float_of_int 0;
     s_algo_fundamental_freq := float_of_int 0;
     s_period := 30;
     switching_voltage := 2048;
     real_fft_plan := plan;
     calls := [] |}.

Definition set_read_size (n : Z) (g : globals) : globals :=
  {| s_algo_template_read_size := n;
     s_algo_sampling_freq := s_algo_sampling_freq g;
     s_algo_total_time := s_algo_total_time g;
     s_algo_max_magnitude := s_algo_max_magnitude g;
     s_algo_fundamental_freq := s_algo_fundamental_freq g;
     s_period := s_period g; switching_voltage := switching_voltage g;
     real_fft_plan := real_fft_plan g; calls := calls g |}.

Definition set_period (n : Z) (g : globals) : globals :=
  {| s_algo_template_read_size := s_algo_template_read_size g;
     s_algo_sampling_freq := s_algo_sampling_freq g;
     s_algo_total_time := s_algo_total_time g;
     s_algo_max_magnitude := s_algo_max_magnitude g;
     s_algo_fundamental_freq := s_algo_fundamental_freq g;
     s_period := n; switching_voltage := switching_voltage g;
     real_fft_plan := real_fft_plan g; calls := calls g |}.

Definition set_peak (mag freq : spec_float) (g : globals) : globals :=
  {| s_algo_template_read_size := s_algo_template_read_size g;
     s_algo_sampling_freq := s_algo_sampling_freq g;
     s_algo_total_time := s_algo_total_time g;
     s_algo_max_magnitude := mag;
     s_algo_fundamental_freq := freq;
     s_period := s_period g; switching_voltage := switching_voltage g;
     real_fft_plan := real_fft_plan g; calls := calls g |}.

Definition set_plan (p : option fft_config_t) (g : globals) : globals :=
  {| s_algo_template_read_size := s_algo_template_read_size g;
     s_algo_sampling_freq := s_algo_sampling_freq g;
     s_algo_total_time := s_algo_total_time g;
     s_algo_max_magnitude := s_algo_max_magnitude g;
     s_algo_fundamental_freq := s_algo_fundamental_freq g;
     s_period := s_period g; switching_voltage := switching_voltage g;
     real_fft_plan := p; calls := calls g |}.

Definition record_call (c : call) (g : globals) : globals :=
  {| s_algo_template_read_size := s_algo_template_read_size g;
     s_algo_sampling_freq := s_algo_sampling_freq g;
     s_algo_total_time := s_algo_total_time g;
     s_algo_max_magnitude := s_algo_max_magnitude g;
     s_algo_fundamental_freq := s_algo_fundamental_freq g;
     s_period := s_period g; switching_voltage := switching_voltage g;
     real_fft_plan := real_fft_plan g; calls := calls g ++ [c] |}.

Definition emit (c : call) : M globals unit := m_modify (record_call c).

Definition set_input (inp : list spec_float) (p : fft_config_t) : fft_config_t :=
  {| size := size p; input := inp; output := output p |}.

(** *** algo_masking *)

(** [real_fft_plan->input[i] = in_buff[in_pos + i];] *)
Definition copy_sample (in_buff : list Z) (in_pos : Z) (i : Z) : M globals unit :=
  let* g := m_get in
  let* plan := lift (deref (real_fft_plan g)) in
  let* v := lift (arr_load in_buff (in_pos + i)) in
  let* inp := lift (arr_store (input plan) i (float_of_int v)) in
  m_modify (set_plan (Some (set_input inp plan))).

(** [sqrt(pow(output[2*k],2) + pow(output[2*k+1],2))], stored in a [float]. *)
Definition bin_magnitude (out : list spec_float) (k : Z) : result spec_float :=
  let? re := arr_load out (2 * k) in
  let? im := arr_load out (2 * k + 1) in
  Ok (to_float (c_sqrt (d_add (c_pow_2 (to_double re)) (c_pow_2 (to_double im))))).

(** [k*1.0/s_algo_total_time], stored in a [float]. *)
Definition bin_frequency (total_time : spec_float) (k : Z) : spec_float :=
  to_float (d_div (d_mul (double_of_int k) d_one) (to_double total_time)).

(** The body of the loop over the bins. *)
Definition track_bin (k : Z) : M globals unit :=
  let* g := m_get in
  let* plan := lift (deref (real_fft_plan g)) in
  let* mag := lift (bin_magnitude (output plan) k) in
  let freq := bin_frequency (s_algo_total_time g) k in
  if f_gt mag (s_algo_max_magnitude g)
  then m_modify (set_peak mag freq)
  else m_ret tt.

(** The function returns nothing; the result here is the caller's output
    buffer as the call leaves it. *)
Definition algo_masking (in_buff out_buff : list Z) (in_pos out_pos : Z)
    (multisamples : Z) : M globals (list Z) :=
  let* g := m_get in
  for_each (seqZ 0 (s_algo_template_read_size g))
    (copy_sample in_buff in_pos) ;;;
  let* g := m_get in
  let* plan := lift (deref (real_fft_plan g)) in
  for_each (seqZ 1 (Z.quot (size plan) 2 - 1)) track_bin ;;;
  emit (Call_ESP_LOGI ALGO_TAG "running algo... %d") ;;;
  m_ret out_buff.

(** *** algo_masking_init, algo_masking_deinit *)

(** The plan returned by [fft_init] is kept in a variable local to the
    function and is gone when it returns. *)
Definition algo_masking_init (params : fad_algo_init_params_t) : M globals unit :=
  m_modify (set_read_size (read_size params)) ;;;
  m_modify (set_period (period params)) ;;;
  let* g := m_get in
  emit (Call_fft_init (s_algo_template_read_size g)).

Definition algo_masking_deinit : M globals unit := m_ret tt.

End Masking.

(** ** Specification vocabulary for the sampling pipeline *)

Module AdcSpec.
Import Adc.

(** A configuration whose cursors fit their [uint16_t] objects. *)
Definition cursors_fit (d : fad_defs) : Prop :=
  0 < adc_algo_size d <= ADC_BUFFER_SIZE d /\ ADC_BUFFER_SIZE d <= 65536.

(** Both buffers are allocated with [ADC_BUFFER_SIZE] elements and both
    cursors index them. *)
Definition buffers_ok (d : fad_defs) (g : globals) : Prop :=
  exists a b,
    adc_buffer g = Some a /\ dac_buffer g = Some b /\
    Z.of_nat (length a) = ADC_BUFFER_SIZE d /\
    Z.of_nat (length b) = ADC_BUFFER_SIZE d /\
    0 <= adc_buffer_pos g < ADC_BUFFER_SIZE d /\
    0 <= dac_buffer_pos g < ADC_BUFFER_SIZE d.

(** The output cursor is one block behind the input cursor. *)
Definition one_block_behind (d : fad_defs) (g : globals) : Prop :=
  (dac_buffer_pos g + adc_algo_size d) mod ADC_BUFFER_SIZE d = adc_buffer_pos g.

(** [adc_buffer_pos % adc_algo_size == 0] *)
Definition at_block_boundary (d : fad_defs) (g : globals) : bool :=
  Z.rem (adc_buffer_pos g) (adc_algo_size d) =? 0.

(** The event built at a block boundary. *)
Definition ready_evt (g : globals) : adc_buffer_rdy_param :=
  {| adc_pos := u16 (adc_buffer_pos g); dac_pos := u16 (dac_buffer_pos g) |}.

Definition queue_full (d : fad_defs) (g : globals) : bool :=
  negb (length (work_queue g) <? WORK_QUEUE_LEN d)%nat.

(** The calls of one run of the handler up to and including the dispatch. *)
Definition dispatch_calls (d : fad_defs) (g : globals) : list call :=
  if at_block_boundary d g
  then [Call_malloc sizeof_adc_evt_params;
        Call_fad_app_work_dispatch ADC_BUFFER_READY_EVT (ready_evt g);
        Call_free]
  else [].

(** The work queue after one run of the handler. *)
Definition queue_after (d : fad_defs) (g : globals) : list work_item :=
  if at_block_boundary d g && negb (queue_full d g)
  then work_queue g ++ [{| wi_evt := ADC_BUFFER_READY_EVT;
                           wi_params := ready_evt g |}]
  else work_queue g.

Definition is_heap_call (c : call) : bool :=
  match c with
  | Call_calloc _ _ | Call_malloc _ | Call_free => true
  | _ => false
  end.

Definition is_diagnostic (c : call) : bool :=
  match c with
  | Call_ESP_LOGI _ _ => true
  | _ => false
  end.

(** The positions of the output buffer an algorithm has written so far. *)
Definition written (h : list label) (pos : Z) : Prop :=
  exists sample, In (L_algo_write pos sample) h.

(** The invariant of the running pipeline: the buffers stay allocated, the
    cursors stay one block apart, and an output sample that no algorithm has
    written is still the zero [calloc] left there. *)
Definition pipeline_inv (d : fad_defs) (h : list label) (g : globals) : Prop :=
  buffers_ok d g /\ one_block_behind d g /\
  forall b pos, dac_buffer g = Some b ->
    0 <= pos < ADC_BUFFER_SIZE d -> ~ written h pos ->
    b !! Z.to_nat pos = Some 0.

(** The state a computation leaves behind (the old state if it faults). *)
Definition state_after {A} (m : M globals A) (g : globals) : globals :=
  match m g with
  | Ok (_, g') => g'
  | Fault _ => g
  end.

(** The value a computation returns, if it returns. *)
Definition returned {A} (r : result (A * globals)) : option A :=
  match r with
  | Ok (a, _) => Some a
  | Fault _ => None
  end.

(** The calls a run made between the state [g] and the state [g']. *)
Definition new_calls (g g' : globals) : list call :=
  drop (length (calls g)) (calls g').

(** Readings of the three error-handling and safety requirements, each for
    one run of the handler from the state [g]. *)


(** The run reports something through the diagnostics sink. *)
Definition diagnostic_run (d : fad_defs) (e : isr_env) (g : globals) : Prop :=
  forall y g', adc_timer_intr_handler d e g = Ok (y, g') ->
    Exists (fun c => is_diagnostic c = true) (new_calls g g').

(** Initialisation refuses a configuration: [adc_init] returns a status
    other than [ESP_OK]. *)
Definition init_refused (d : fad_defs) (e : alloc_env) (t : timer_env) : Prop :=
  exists r g', adc_init d e t power_on = Ok (r, g') /\ r <> ESP_OK.

(** An event announces one whole block of each buffer: both offsets are
    multiples of the block size, both blocks lie inside the buffers, and the
    output block is the one before the input block. *)
Definition block_aligned (d : fad_defs) (p : adc_buffer_rdy_param) : Prop :=
  adc_pos p mod adc_algo_size d = 0 /\
  dac_pos p mod adc_algo_size d = 0 /\
  0 <= adc_pos p /\ adc_pos p + adc_algo_size d <= ADC_BUFFER_SIZE d /\
  0 <= dac_pos p /\ dac_pos p + adc_algo_size d <= ADC_BUFFER_SIZE d /\
  dac_pos p = (adc_pos p - adc_algo_size d) mod ADC_BUFFER_SIZE d.

(** The messages waiting in the work queue are ready events for whole
    blocks, and an algorithm is installed. *)
Definition worker_inv (d : fad_defs) (g : globals) : Prop :=
  algo_function g = Some Algo_white /\
  Forall (fun w => wi_evt w = ADC_BUFFER_READY_EVT /\
                   block_aligned d (wi_params w)) (work_queue g).

Definition is_dispatch (c : call) : bool :=
  match c with
  | Call_fad_app_work_dispatch _ _ => true
  | _ => false
  end.

(** How many of [n] consecutive cursor positions from [p] on are multiples
    of the block size [B]. *)
Fixpoint boundaries (B p : Z) (n : nat) : Z :=
  match n with
  | O => 0
  | S n' => (if p mod B =? 0 then 1 else 0) + boundaries B (p + 1) n'
  end.

End AdcSpec.

(** ** Scenarios *)

Module Scenario.
Import Adc AdcSpec.

(** The configuration of the design document: 2048 samples, blocks of 256. *)
Definition cfg : fad_defs :=
  {| ADC_BUFFER_SIZE := 2048; adc_algo_size := 256; WORK_QUEUE_LEN := 10 |}.

(** A small ring with room for a single message in the work queue. *)
Definition cfg_small : fad_defs :=
  {| ADC_BUFFER_SIZE := 8; adc_algo_size := 4; WORK_QUEUE_LEN := 1 |}.

(** A block size that does not divide the capacity. *)
Definition cfg_ragged : fad_defs :=
  {| ADC_BUFFER_SIZE := 2048; adc_algo_size := 300; WORK_QUEUE_LEN := 10 |}.

Definition allocs_ok : alloc_env :=
  {| adc_calloc_succeeds := true; dac_calloc_succeeds := true |}.

Definition timers_ok : timer_env :=
  {| timer_init_ret := ESP_OK; timer_set_counter_value_ret := ESP_OK;
     timer_enable_intr_ret := ESP_OK; timer_set_alarm_value_ret := ESP_OK;
     timer_isr_callback_add_ret := ESP_OK; timer_start_ret := ESP_OK |}.

Definition sample (v : Z) : isr_env :=
  {| malloc_succeeds := true; adc_raw := v |}.

(** After initialisation, and after the first run of the handler. *)
Definition g0 : globals := state_after (adc_init cfg allocs_ok timers_ok) power_on.
Definition g1 : globals := state_after (adc_timer_intr_handler cfg (sample 1000)) g0.

(** The small ring after initialisation and after one whole block, with
    the worker stalled: the only slot of the queue is taken. *)
Definition s0 : globals :=
  state_after (adc_init cfg_small allocs_ok timers_ok) power_on.
Definition block : list isr_env := [sample 11; sample 12; sample 13; sample 14].
Definition s4 : globals := state_after (ticks cfg_small block) s0.

(** The algorithm writes one sample of the output buffer. *)
Definition algo_write (pos sample : Z) (g : globals) : globals :=
  match dac_buffer g with
  | Some buf => set_dac_buffer (Some (<[Z.to_nat pos := u8 sample]> buf)) g
  | None => g
  end.

(** After the first run of the handler the algorithm has written position 0. *)
Definition g2 : globals := algo_write 0 77 g1.

(** An algorithm that writes one sample at the start of the output block it
    is handed. *)
Definition algo_first_sample (v : Z) : Worker.algo_func_t :=
  fun a b => Ok (a, <[0%nat := u8 v]> b).

End Scenario.

(** ** Specification vocabulary for the masking algorithm *)

Module MaskingSpec.
Import Ieee Masking.

(** The magnitude of bin [k] as the loop computes it (zero where the plan
    has no such bin). *)
Definition mag_of (plan : fft_config_t) (k : Z) : spec_float :=
  match bin_magnitude (output plan) k with
  | Ok m => m
  | Fault _ => f_zero
  end.

(** The design's formula for a bin: [sqrt(re^2 + im^2)], evaluated in
    [double] and stored as [float]. *)
Definition spec_magnitude (re im : spec_float) : spec_float :=
  to_float (c_sqrt (d_add (d_mul (to_double re) (to_double re))
                          (d_mul (to_double im) (to_double im)))).

(** One iteration of the tracking loop on the pair (peak magnitude,
    fundamental frequency). *)
Definition peak_step (plan : fft_config_t) (total_time : spec_float)
    (st : spec_float * spec_float) (k : Z) : spec_float * spec_float :=
  if f_gt (mag_of plan k) (fst st)
  then (mag_of plan k, bin_frequency total_time k)
  else st.

(** The plan and the caller's input buffer are large enough for one call. *)
Definition call_ok (g : globals) (plan : fft_config_t) (in_buff : list Z)
    (in_pos : Z) : Prop :=
  real_fft_plan g = Some plan /\
  0 <= in_pos /\
  in_pos + s_algo_template_read_size g <= Z.of_nat (length in_buff) /\
  s_algo_template_read_size g <= Z.of_nat (length (input plan)) /\
  size plan <= Z.of_nat (length (output plan)).

(** The state a computation leaves behind (the old state if it faults). *)
Definition state_after {A} (m : M globals A) (g : globals) : globals :=
  match m g with
  | Ok (_, g') => g'
  | Fault _ => g
  end.

(** The calls a run made between the state [g] and the state [g']. *)
Definition new_calls (g g' : globals) : list call :=
  drop (length (calls g)) (calls g').

(** Switching variants: [deinit] of the active one, then [init]. *)
Definition switch_variant (params : fad_algo_init_params_t) : M globals unit :=
  algo_masking_deinit ;;; algo_masking_init params.

(** A reading of the requirement on [init]: after a switch the peak state
    is zero. *)
Definition switch_clears_peak (params : fad_algo_init_params_t) (g : globals)
    : Prop :=
  forall g', switch_variant params g = Ok (tt, g') ->
    s_algo_max_magnitude g' = f_zero /\ s_algo_fundamental_freq g' = f_zero.

(** The arguments of one [process] call. *)
Record process_args : Set := {
  pa_in_buff : list Z;
  pa_out_buff : list Z;
  pa_in_pos : Z;
  pa_out_pos : Z;
  pa_multisamples : Z
}.

(** A run of [process] calls, one per block, in order. *)
Fixpoint process_all (cs : list process_args) : M globals unit :=
  match cs with
  | [] => m_ret tt
  | c :: cs' =>
      algo_masking (pa_in_buff c) (pa_out_buff c) (pa_in_pos c) (pa_out_pos c)
        (pa_multisamples c) ;;;
      process_all cs'
  end.

(** The input buffer is long enough for a call at [in_pos] when [n] samples
    are read. *)
Definition args_ok (n : Z) (c : process_args) : Prop :=
  0 <= pa_in_pos c /\ pa_in_pos c + n <= Z.of_nat (length (pa_in_buff c)).

(** The integer a float stands for, when it stands for one. *)
Definition integer_value (x : spec_float) : option Z :=
  match x with
  | S754_zero _ => Some 0
  | S754_finite s m e =>
      let v := if s then Z.neg m else Z.pos m in
      if 0 <=? e then Some (v * 2 ^ e)
      else if v mod 2 ^ (- e) =? 0 then Some (v / 2 ^ (- e)) else None
  | _ => None
  end.

(** The [n] samples from [v] on all convert to [float] exactly. *)
Fixpoint exact_from (n : nat) (v : Z) : bool :=
  match n with
  | O => true
  | S n' =>
      match integer_value (float_of_int v) with
      | Some w => w =? v
      | None => false
      end && exact_from n' (v + 1)
  end.


End MaskingSpec.

(** ** Scenarios for the masking algorithm *)

Module MaskingScenario.
Import Ieee Masking MaskingSpec.

(** An eight-point plan whose output array holds the bins
    (0,0), (3,4), (1,1), (6,8): magnitudes 5 at bin 1 and 10 at bin 3. *)
Definition plan8 : fft_config_t :=
  {| size := 8;
     input := replicate 8 f_zero;
     output := map float_of_int [0; 0; 3; 4; 1; 1; 6; 8] |}.

Definition params8 : fad_algo_init_params_t := {| read_size := 8; period := 30 |}.

(** The statics at program start, then [init] for blocks of eight. *)
Definition m0 : globals :=
  state_after (algo_masking_init params8) (static_init (Some plan8)).

Definition in8 : list Z := [100; 200; 300; 400; 500; 600; 700; 800].
Definition out8 : list Z := [9; 9; 9; 9; 9; 9; 9; 9].

(** After one [process] call. *)
Definition m1 : globals := state_after (algo_masking in8 out8 0 0 1) m0.

(** The statics at program start with a plan of the configured 2048 points,
    and one block of input. *)
Definition plan2048 : fft_config_t :=
  {| size := 2048;
     input := replicate 2048 f_zero;
     output := replicate 2048 (float_of_int 1) |}.
Definition p0 : globals := static_init (Some plan2048).
Definition in2048 : list Z := replicate 2048 1000.
Definition out2048 : list Z := replicate 2048 9.


End MaskingScenario.

(** ** esp_tests/main/main.c: the packet finder of the serial link *)

Module Serial.

(** A [char] is its character code. *)
Definition char : Set := Z.
Definition chr (c : ascii) : char := Z.of_nat (nat_of_ascii c).

(** The string literal ["DATA"], with its terminator. *)
Definition d : list char :=
  [chr "D"%char; chr "A"%char; chr "T"%char; chr "A"%char; 0].

(** The [while] loop of [find_data_string], the values of [i] still to come
    listed in order; the result is the offset of the returned pointer into
    [data], [None] for [NULL]. *)
Fixpoint find_loop (data : list char) (todo : list Z) (d_pos : Z)
    : result (option Z) :=
  match todo with
  | [] => Ok None
  | i :: todo' =>
      let? c := arr_load data i in
      let? dc := arr_load d d_pos in
      let d_pos := if c =? dc then d_pos + 1 else 0 in
      if d_pos =? 4 then Ok (Some (i - 3))
      else find_loop data todo' d_pos
  end.

Definition find_data_string (data : list char) (size : Z) : result (option Z) :=
  find_loop data (seqZ 0 size) 0.

(** The four characters at offset [p] of [data] spell DATA. *)
Definition data_at (data : list char) (p : Z) : Prop :=
  0 <= p /\
  forall j, 0 <= j < 4 -> data !! Z.to_nat (p + j) = d !! Z.to_nat j.

End Serial.

(** * Properties of the sampling pipeline *)

Section AdcProperties.
Import Adc AdcSpec.

(** Symbolic execution of the monadic code of [fad_adc.c]. *)
Ltac run_adc :=
  cbv beta iota zeta delta
    [m_bind m_ret m_get m_modify m_fail lift r_bind deref c_rem
     malloc calloc free emit store load dac_output fad_app_work_dispatch
     driver record_call set_adc_buffer set_dac_buffer set_adc_buffer_pos
     set_dac_buffer_pos set_algo_function set_work_queue
     adc_buffer dac_buffer adc_buffer_pos dac_buffer_pos algo_function
     work_queue calls negb andb].

Lemma u16_small z : 0 <= z < 65536 -> u16 z = z.
Proof. intros H. unfold u16. apply Z.mod_small. exact H. Qed.

Lemma in_bounds_true {A} (l : list A) i :
  0 <= i < Z.of_nat (length l) -> in_bounds l i = true.
Proof. intros H. unfold in_bounds. apply andb_true_iff. lia. Qed.

Lemma arr_load_ok {A} (l : list A) i v :
  0 <= i -> l !! Z.to_nat i = Some v -> arr_load l i = Ok v.
Proof.
  intros Hi Hv. unfold arr_load.
  pose proof (lookup_lt_Some _ _ _ Hv) as Hlt.
  rewrite in_bounds_true by lia. rewrite Hv. reflexivity.
Qed.

Lemma arr_store_ok {A} (l : list A) i v :
  0 <= i < Z.of_nat (length l) ->
  arr_store l i v = Ok (<[Z.to_nat i := v]> l).
Proof. intros H. unfold arr_store. rewrite in_bounds_true by exact H. reflexivity. Qed.

Lemma advance_cursor (d : fad_defs) p :
  cursors_fit d -> 0 <= p < ADC_BUFFER_SIZE d ->
  u16 (Z.rem (p + 1) (ADC_BUFFER_SIZE d)) = (p + 1) mod ADC_BUFFER_SIZE d /\
  0 <= (p + 1) mod ADC_BUFFER_SIZE d < ADC_BUFFER_SIZE d.
Proof.
  intros [Hb Hc] Hp.
  assert (Hm : 0 <= (p + 1) mod ADC_BUFFER_SIZE d < ADC_BUFFER_SIZE d)
    by (apply Z.mod_pos_bound; lia).
  split; [| exact Hm].
  rewrite Z.rem_mod_nonneg by lia. apply u16_small. lia.
Qed.

(** One run of the handler, in closed form. *)
Lemma handler_run (d : fad_defs) (e : isr_env) (g : globals) a b v :
  cursors_fit d ->
  adc_buffer g = Some a -> dac_buffer g = Some b ->
  Z.of_nat (length a) = ADC_BUFFER_SIZE d ->
  0 <= adc_buffer_pos g < ADC_BUFFER_SIZE d ->
  0 <= dac_buffer_pos g < ADC_BUFFER_SIZE d ->
  b !! Z.to_nat (dac_buffer_pos g) = Some v ->
  malloc_succeeds e = true \/ at_block_boundary d g = false ->
  adc_timer_intr_handler d e g =
  Ok (false,
      {| adc_buffer := Some (<[Z.to_nat (adc_buffer_pos g) := u16 (adc_raw e)]> a);
         dac_buffer := Some b;
         adc_buffer_pos := (adc_buffer_pos g + 1) mod ADC_BUFFER_SIZE d;
         dac_buffer_pos := (dac_buffer_pos g + 1) mod ADC_BUFFER_SIZE d;
         algo_function := algo_function g;
         work_queue := queue_after d g;
         calls := calls g ++ dispatch_calls d g ++
                  [Call_adc1_get_raw (adc_raw e);
                   Call_dac_output (dac_buffer_pos g) v] |}).
Proof.
  intros Hfit Ha Hb Hla Hpa Hpd Hv Hm.
  destruct (advance_cursor d _ Hfit Hpa) as [Ea _].
  destruct (advance_cursor d _ Hfit Hpd) as [Ed _].
  destruct Hfit as [HB HC].
  assert (HB0 : (adc_algo_size d =? 0) = false) by (apply Z.eqb_neq; lia).
  assert (HC0 : (ADC_BUFFER_SIZE d =? 0) = false) by (apply Z.eqb_neq; lia).
  destruct g as [ga gb pa pd af q cs]. simpl in *. subst ga gb.
  unfold adc_timer_intr_handler, queue_after, dispatch_calls, queue_full,
    at_block_boundary, ready_evt.
  run_adc. rewrite HB0, HC0. run_adc.
  rewrite arr_store_ok by lia.
  rewrite (arr_load_ok b pd v) by (try lia; exact Hv).
  rewrite Ea, Ed.
  unfold at_block_boundary in Hm. simpl in Hm.
  destruct (Z.rem pa (adc_algo_size d) =? 0) eqn:Hbd; run_adc.
  - destruct Hm as [Hm | Hm]; [rewrite Hm | discriminate Hm].
    destruct (length q <? WORK_QUEUE_LEN d)%nat eqn:Hq; run_adc;
      rewrite <- !app_assoc; reflexivity.
  - rewrite <- !app_assoc. reflexivity.
Qed.

(** At a block boundary a failed [malloc] is dereferenced. *)
Lemma handler_null (d : fad_defs) (e : isr_env) (g : globals) :
  adc_algo_size d <> 0 ->
  at_block_boundary d g = true -> malloc_succeeds e = false ->
  adc_timer_intr_handler d e g = Fault NullDereference.
Proof.
  intros HB Hbd Hm. apply Z.eqb_neq in HB.
  destruct g as [ga gb pa pd af q cs].
  unfold adc_timer_intr_handler, at_block_boundary in *. simpl in Hbd.
  run_adc. rewrite HB. run_adc. rewrite Hbd, Hm. reflexivity.
Qed.

(** [adc_buffer_init], in closed form. *)
Lemma buffer_init_run (d : fad_defs) (e : alloc_env) (g : globals) :
  adc_buffer_init d e g =
  let zeros := replicate (Z.to_nat (ADC_BUFFER_SIZE d)) 0 in
  if adc_calloc_succeeds e then
    if dac_calloc_succeeds e then
      Ok (ESP_OK,
          {| adc_buffer := Some zeros; dac_buffer := Some zeros;
             adc_buffer_pos := u16 0;
             dac_buffer_pos := u16 (ADC_BUFFER_SIZE d - adc_algo_size d);
             algo_function := algo_function g; work_queue := work_queue g;
             calls := calls g ++ [Call_calloc (ADC_BUFFER_SIZE d) 2;
                                  Call_calloc (ADC_BUFFER_SIZE d) 1] |})
    else
      Ok (ESP_ERR_NO_MEM,
          {| adc_buffer := Some zeros; dac_buffer := None;
             adc_buffer_pos := adc_buffer_pos g;
             dac_buffer_pos := dac_buffer_pos g;
             algo_function := algo_function g; work_queue := work_queue g;
             calls := calls g ++ [Call_calloc (ADC_BUFFER_SIZE d) 2;
                                  Call_calloc (ADC_BUFFER_SIZE d) 1] |})
  else
    Ok (ESP_ERR_NO_MEM,
        {| adc_buffer := None; dac_buffer := dac_buffer g;
           adc_buffer_pos := adc_buffer_pos g;
           dac_buffer_pos := dac_buffer_pos g;
           algo_function := algo_function g; work_queue := work_queue g;
           calls := calls g ++ [Call_calloc (ADC_BUFFER_SIZE d) 2] |}).
Proof.
  unfold adc_buffer_init. destruct g as [ga gb pa pd af q cs].
  destruct (adc_calloc_succeeds e), (dac_calloc_succeeds e); run_adc;
    rewrite <- ?app_assoc; reflexivity.
Qed.

(** What successful initialisation leaves behind. *)
Lemma buffer_init_ok (d : fad_defs) (e : alloc_env) (g g' : globals) :
  adc_buffer_init d e g = Ok (ESP_OK, g') ->
  adc_buffer g' = Some (replicate (Z.to_nat (ADC_BUFFER_SIZE d)) 0) /\
  dac_buffer g' = Some (replicate (Z.to_nat (ADC_BUFFER_SIZE d)) 0) /\
  adc_buffer_pos g' = u16 0 /\
  dac_buffer_pos g' = u16 (ADC_BUFFER_SIZE d - adc_algo_size d).
Proof.
  rewrite buffer_init_run. cbv zeta.
  destruct (adc_calloc_succeeds e), (dac_calloc_succeeds e);
    intros H; inversion H; subst; simpl; auto.
Qed.

(** [adc_init] hands back the status of [adc_timer_init], which is the
    status of [timer_isr_callback_add]. *)
Lemma adc_init_run (d : fad_defs) (e : alloc_env) (t : timer_env) (g : globals) :
  exists r g' cs,
    adc_buffer_init d e g = Ok (r, g') /\
    adc_init d e t g =
      Ok (timer_isr_callback_add_ret t,
          {| adc_buffer := adc_buffer g'; dac_buffer := dac_buffer g';
             adc_buffer_pos := adc_buffer_pos g';
             dac_buffer_pos := dac_buffer_pos g';
             algo_function := Some Algo_white;
             work_queue := work_queue g';
             calls := calls g ++ cs |}) /\
    ~ In Call_timer_start cs.
Proof.
  unfold adc_init, adc_timer_init, algo_white_init.
  rewrite buffer_init_run. unfold adc_buffer_init. cbv zeta.
  destruct g as [ga gb pa pd af q cs].
  destruct (adc_calloc_succeeds e), (dac_calloc_succeeds e); run_adc;
    rewrite <- ?app_assoc; simpl;
    (do 3 eexists; split; [reflexivity |]; split; [reflexivity |]);
    simpl; intuition discriminate.
Qed.

(** What an [adc_init] with a successful [adc_buffer_init] leaves behind. *)
Lemma init_ok (d : fad_defs) (e : alloc_env) (t : timer_env) r (g0 g : globals) :
  adc_buffer_init d e power_on = Ok (ESP_OK, g0) ->
  adc_init d e t power_on = Ok (r, g) ->
  adc_buffer g = Some (replicate (Z.to_nat (ADC_BUFFER_SIZE d)) 0) /\
  dac_buffer g = Some (replicate (Z.to_nat (ADC_BUFFER_SIZE d)) 0) /\
  adc_buffer_pos g = u16 0 /\
  dac_buffer_pos g = u16 (ADC_BUFFER_SIZE d - adc_algo_size d).
Proof.
  intros Hbuf Hinit.
  destruct (adc_init_run d e t power_on) as (r' & g' & cs & Hbuf' & Hinit' & _).
  rewrite Hbuf in Hbuf'. inversion Hbuf'; subst r' g'.
  rewrite Hinit' in Hinit. inversion Hinit; subst. simpl.
  exact (buffer_init_ok _ _ _ _ Hbuf).
Qed.

Lemma pipeline_inv_init (d : fad_defs) (e : alloc_env) (t : timer_env) r
    (g0 g : globals) :
  cursors_fit d ->
  adc_buffer_init d e power_on = Ok (ESP_OK, g0) ->
  adc_init d e t power_on = Ok (r, g) ->
  pipeline_inv d [] g.
Proof.
  intros Hfit Hbuf Hinit. pose proof Hfit as [HB HC].
  destruct (init_ok _ _ _ _ _ _ Hbuf Hinit) as (Ha & Hb & Hpa & Hpd).
  rewrite u16_small in Hpa by lia. rewrite u16_small in Hpd by lia.
  repeat split.
  - exists (replicate (Z.to_nat (ADC_BUFFER_SIZE d)) 0),
      (replicate (Z.to_nat (ADC_BUFFER_SIZE d)) 0).
    rewrite length_replicate. repeat split; auto; lia.
  - unfold one_block_behind. rewrite Hpa, Hpd.
    replace (ADC_BUFFER_SIZE d - adc_algo_size d + adc_algo_size d)
      with (ADC_BUFFER_SIZE d) by lia.
    apply Z.mod_same. lia.
  - intros b pos Hb' Hpos _. rewrite Hb in Hb'. inversion Hb'; subst b.
    apply lookup_replicate_2. lia.
Qed.

Lemma handler_inv (d : fad_defs) (e : isr_env) (g g' : globals) y :
  cursors_fit d -> buffers_ok d g ->
  adc_timer_intr_handler d e g = Ok (y, g') ->
  exists a b v,
    adc_buffer g = Some a /\ dac_buffer g = Some b /\
    b !! Z.to_nat (dac_buffer_pos g) = Some v /\
    y = false /\
    g' = {| adc_buffer := Some (<[Z.to_nat (adc_buffer_pos g) := u16 (adc_raw e)]> a);
            dac_buffer := Some b;
            adc_buffer_pos := (adc_buffer_pos g + 1) mod ADC_BUFFER_SIZE d;
            dac_buffer_pos := (dac_buffer_pos g + 1) mod ADC_BUFFER_SIZE d;
            algo_function := algo_function g;
            work_queue := queue_after d g;
            calls := calls g ++ dispatch_calls d g ++
                     [Call_adc1_get_raw (adc_raw e);
                      Call_dac_output (dac_buffer_pos g) v] |}.
Proof.
  intros Hfit (a & b & Ha & Hb & Hla & Hlb & Hpa & Hpd) Hrun.
  destruct (lookup_lt_is_Some_2 b (Z.to_nat (dac_buffer_pos g))) as [v Hv];
    [lia |].
  exists a, b, v.
  destruct (malloc_succeeds e) eqn:Hm.
  - rewrite (handler_run d e g a b v) in Hrun by auto.
    inversion Hrun; auto 6.
  - destruct (at_block_boundary d g) eqn:Hbd.
    + rewrite handler_null in Hrun; [discriminate | | assumption..].
      destruct Hfit; lia.
    + rewrite (handler_run d e g a b v) in Hrun by auto.
      inversion Hrun; auto 6.
Qed.

(** [adc_hdl_evt] leaves the buffers and the cursors alone. *)
Lemma hdl_evt_inv evt params (g g' : globals) :
  adc_hdl_evt evt params g = Ok (tt, g') ->
  adc_buffer g' = adc_buffer g /\ dac_buffer g' = dac_buffer g /\
  adc_buffer_pos g' = adc_buffer_pos g /\
  dac_buffer_pos g' = dac_buffer_pos g.
Proof.
  unfold adc_hdl_evt. destruct g as [ga gb pa pd af q cs].
  destruct (evt =? ADC_BUFFER_READY_EVT); run_adc.
  - destruct af; intros H; inversion H; subst; simpl; auto.
  - intros H; inversion H; subst; simpl; auto.
Qed.

Lemma pipeline_inv_step (d : fad_defs) h g l g' :
  cursors_fit d ->
  pipeline_inv d h g -> step d g l g' -> pipeline_inv d (l :: h) g'.
Proof.
  intros Hfit (Hok & Hoff & Hzero) Hstep. pose proof Hfit as [HB HC].
  inversion Hstep; subst.
  - (* one run of the handler *)
    destruct (handler_inv _ _ _ _ _ Hfit Hok H) as (a & b & v & Ha & Hb & Hv & _ & ->).
    destruct Hok as (a' & b' & Ha' & Hb' & Hla & Hlb & Hpa & Hpd).
    rewrite Ha in Ha'. rewrite Hb in Hb'. inversion Ha'; inversion Hb'; subst a' b'.
    repeat split; simpl.
    + exists (<[Z.to_nat (adc_buffer_pos g) := u16 (adc_raw e)]> a), b.
      simpl. rewrite length_insert.
      repeat split; auto; apply Z.mod_pos_bound; lia.
    + unfold one_block_behind in *. simpl.
      rewrite Z.add_mod_idemp_l by lia.
      replace (dac_buffer_pos g + 1 + adc_algo_size d)
        with (dac_buffer_pos g + adc_algo_size d + 1) by lia.
      rewrite <- Z.add_mod_idemp_l by lia. rewrite Hoff. reflexivity.
    + intros b0 pos Hb0 Hpos Hnw. inversion Hb0; subst b0.
      apply (Hzero b pos Hb Hpos).
      intros [s Hs]. apply Hnw. exists s. right. exact Hs.
  - (* the worker takes a message *)
    destruct (hdl_evt_inv _ _ _ _ H0) as (Ea & Eb & Epa & Epd).
    simpl in Ea, Eb, Epa, Epd.
    unfold pipeline_inv, buffers_ok, one_block_behind in *.
    rewrite Ea, Eb, Epa, Epd.
    repeat split.
    + destruct Hok as (a & b & Hok). exists a, b. exact Hok.
    + exact Hoff.
    + intros b pos Hb Hpos Hnw. apply (Hzero b pos Hb Hpos).
      intros [s Hs]. apply Hnw. exists s. right. exact Hs.
  - (* the algorithm writes an output sample *)
    destruct Hok as (a & b & Ha & Hb & Hla & Hlb & Hpa & Hpd).
    rewrite Hb in H. inversion H; subst buf.
    repeat split.
    + exists a, (<[Z.to_nat pos := u8 sample]> b). simpl.
      rewrite length_insert. repeat split; auto; lia.
    + exact Hoff.
    + intros b0 p Hb0 Hp Hnw. simpl in Hb0. inversion Hb0; subst b0.
      assert (Hne : p <> pos).
      { intros ->. apply Hnw. exists sample. left. reflexivity. }
      rewrite list_lookup_insert_ne by lia.
      apply (Hzero b p Hb Hp).
      intros [s Hs]. apply Hnw. exists s. right. exact Hs.
Qed.

Lemma reachable_inv (d : fad_defs) h g :
  cursors_fit d -> reachable d h g -> pipeline_inv d h g.
Proof.
  intros Hfit Hr. induction Hr as [e t r g0 g Hbuf Hinit | h g l g' _ IH Hstep].
  - exact (pipeline_inv_init d e t r g0 g Hfit Hbuf Hinit).
  - exact (pipeline_inv_step d h g l g' Hfit IH Hstep).
Qed.

Lemma reachable_ticks (d : fad_defs) es h g g' :
  reachable d h g -> ticks d es g = Ok (tt, g') ->
  reachable d (rev (map L_tick es) ++ h) g'.
Proof.
  revert h g. induction es as [| e es IH]; intros h g Hr Hrun.
  - inversion Hrun; subst. exact Hr.
  - simpl in Hrun. unfold m_bind in Hrun at 1.
    destruct (adc_timer_intr_handler d e g) as [[y g1] | f] eqn:He;
      [| discriminate].
    simpl. rewrite <- app_assoc. simpl.
    apply (IH (L_tick e :: h) g1); [| exact Hrun].
    apply (reach_step d h g (L_tick e) g1 Hr).
    apply (step_tick d e g y g1 He).
Qed.

Lemma divides_fit (d : fad_defs) :
  0 < adc_algo_size d ->
  (adc_algo_size d | ADC_BUFFER_SIZE d) ->
  0 < ADC_BUFFER_SIZE d <= 65536 ->
  cursors_fit d.
Proof.
  intros HB Hdiv HC. split; [| lia]. split; [exact HB |].
  apply Z.divide_pos_le; [lia | exact Hdiv].
Qed.

(** ** The cursor pair *)

(** C1. Whenever the block size evenly divides the buffer capacity (both
    positive, cursors held in [uint16_t]), in every state the pipeline is in
    between two runs of the handler the output cursor is the input cursor
    minus one block size modulo the capacity.  Buffer initialisation sets the
    cursors to 0 and capacity - block size, and a run of the handler advances
    each cursor by one modulo the capacity. *)
Theorem cursor_offset_invariant (d : fad_defs) (h : list label) (g : globals) :
  0 < adc_algo_size d ->
  (adc_algo_size d | ADC_BUFFER_SIZE d) ->
  0 < ADC_BUFFER_SIZE d <= 65536 ->
  reachable d h g ->
  dac_buffer_pos g = (adc_buffer_pos g - adc_algo_size d) mod ADC_BUFFER_SIZE d /\
  (dac_buffer_pos g + adc_algo_size d) mod ADC_BUFFER_SIZE d = adc_buffer_pos g /\
  (h = [] ->
     adc_buffer_pos g = 0 /\
     dac_buffer_pos g = ADC_BUFFER_SIZE d - adc_algo_size d) /\
  (forall e y g', adc_timer_intr_handler d e g = Ok (y, g') ->
     adc_buffer_pos g' = (adc_buffer_pos g + 1) mod ADC_BUFFER_SIZE d /\
     dac_buffer_pos g' = (dac_buffer_pos g + 1) mod ADC_BUFFER_SIZE d).
Proof.
  intros HB Hdiv HC Hr.
  pose proof (divides_fit d HB Hdiv HC) as Hfit.
  destruct (reachable_inv d h g Hfit Hr) as (Hok & Hoff & _).
  unfold one_block_behind in Hoff.
  repeat split.
  - destruct Hok as (a & b & _ & _ & _ & _ & _ & Hpd).
    rewrite <- Hoff. rewrite Zminus_mod_idemp_l.
    replace (dac_buffer_pos g + adc_algo_size d - adc_algo_size d)
      with (dac_buffer_pos g) by lia.
    symmetry. apply Z.mod_small. exact Hpd.
  - exact Hoff.
  - inversion Hr as [e0 t0 r0 gi g0 Hbuf Hinit |]; subst; [| discriminate].
    destruct (init_ok _ _ _ _ _ _ Hbuf Hinit) as (_ & _ & Hpa & _).
    rewrite Hpa. apply u16_small. lia.
  - inversion Hr as [e0 t0 r0 gi g0 Hbuf Hinit |]; subst; [| discriminate].
    destruct (init_ok _ _ _ _ _ _ Hbuf Hinit) as (_ & _ & _ & Hpd).
    rewrite Hpd. apply u16_small. destruct Hfit. lia.
  - destruct (handler_inv _ _ _ _ _ Hfit Hok H) as (a & b & v & _ & _ & _ & _ & ->).
    reflexivity.
  - destruct (handler_inv _ _ _ _ _ Hfit Hok H) as (a & b & v & _ & _ & _ & _ & ->).
    reflexivity.
Qed.

Import Scenario.

Lemma g0_reachable : reachable cfg [] g0.
Proof.
  apply (reach_init cfg allocs_ok timers_ok ESP_OK
           (state_after (adc_buffer_init cfg allocs_ok) power_on));
    vm_compute; reflexivity.
Qed.

Lemma g1_reachable : reachable cfg [L_tick (sample 1000)] g1.
Proof.
  apply (reach_step cfg [] g0 _ g1 g0_reachable).
  apply (step_tick cfg (sample 1000) g0 false). vm_compute. reflexivity.
Qed.

Lemma s0_reachable : reachable cfg_small [] s0.
Proof.
  apply (reach_init cfg_small allocs_ok timers_ok ESP_OK
           (state_after (adc_buffer_init cfg_small allocs_ok) power_on));
    vm_compute; reflexivity.
Qed.

Lemma s4_reachable : reachable cfg_small (rev (map L_tick block)) s4.
Proof.
  rewrite <- (app_nil_r (rev (map L_tick block))).
  apply (reachable_ticks cfg_small block [] s0 s4 s0_reachable).
  vm_compute. reflexivity.
Qed.

Lemma cfg_fits : cursors_fit cfg.
Proof. unfold cursors_fit. simpl. lia. Qed.

Lemma cfg_small_fits : cursors_fit cfg_small.
Proof. unfold cursors_fit. simpl. lia. Qed.

Lemma cursor_offset_invariant_witness :
  adc_buffer_pos g1 = 1 /\ dac_buffer_pos g1 = 1793 /\
  dac_buffer_pos g1 = (adc_buffer_pos g1 - 256) mod 2048.
Proof.
  assert (Hdiv : (adc_algo_size cfg | ADC_BUFFER_SIZE cfg))
    by (exists 8; reflexivity).
  destruct (cursor_offset_invariant cfg [L_tick (sample 1000)] g1
              ltac:(simpl; lia) Hdiv ltac:(simpl; lia) g1_reachable)
    as [Hoff _].
  split; [reflexivity |]. split; [reflexivity | exact Hoff].
Defined.

(** ** One run of the interrupt handler *)

(** The effects of one run of the handler in a running pipeline. *)
Lemma handler_effects (d : fad_defs) (h : list label) (g : globals)
    (e : isr_env) :
  cursors_fit d ->
  reachable d h g ->
  malloc_succeeds e = true ->
  exists a b v g',
    adc_buffer g = Some a /\ dac_buffer g = Some b /\
    b !! Z.to_nat (dac_buffer_pos g) = Some v /\
    adc_timer_intr_handler d e g = Ok (false, g') /\
    calls g' =
      calls g ++
      (if Z.rem (adc_buffer_pos g) (adc_algo_size d) =? 0
       then [Call_malloc sizeof_adc_evt_params;
             Call_fad_app_work_dispatch ADC_BUFFER_READY_EVT
               {| adc_pos := adc_buffer_pos g; dac_pos := dac_buffer_pos g |};
             Call_free]
       else []) ++
      [Call_adc1_get_raw (adc_raw e); Call_dac_output (dac_buffer_pos g) v] /\
    work_queue g' =
      (if (Z.rem (adc_buffer_pos g) (adc_algo_size d) =? 0)
          && (length (work_queue g) <? WORK_QUEUE_LEN d)%nat
       then work_queue g ++
            [{| wi_evt := ADC_BUFFER_READY_EVT;
                wi_params := {| adc_pos := adc_buffer_pos g;
                                dac_pos := dac_buffer_pos g |} |}]
       else work_queue g) /\
    adc_buffer g' = Some (<[Z.to_nat (adc_buffer_pos g) := u16 (adc_raw e)]> a) /\
    dac_buffer g' = Some b /\
    adc_buffer_pos g' = (adc_buffer_pos g + 1) mod ADC_BUFFER_SIZE d /\
    dac_buffer_pos g' = (dac_buffer_pos g + 1) mod ADC_BUFFER_SIZE d.
Proof.
  intros Hfit Hr Hm.
  destruct (reachable_inv d h g Hfit Hr) as (Hok & _ & _).
  destruct Hok as (a & b & Ha & Hb & Hla & Hlb & Hpa & Hpd).
  destruct (lookup_lt_is_Some_2 b (Z.to_nat (dac_buffer_pos g))) as [v Hv];
    [lia |].
  exists a, b, v. eexists.
  split; [exact Ha |]. split; [exact Hb |]. split; [exact Hv |].
  split; [apply (handler_run d e g a b v); auto |].
  destruct Hfit as [HB HC].
  unfold dispatch_calls, queue_after, queue_full, at_block_boundary, ready_evt.
  rewrite (u16_small (adc_buffer_pos g)), (u16_small (dac_buffer_pos g)) by lia.
  rewrite negb_involutive.
  simpl. auto 10.
Qed.

(** C2. A run of the handler in a running pipeline (with [malloc] finding
    memory for the event) does, in this order: at a block boundary, build
    the event from the two cursors and hand it once to the non-blocking
    dispatch; read one ADC sample and store it at the input cursor; emit the
    output-buffer sample at the output cursor; advance both cursors by one
    modulo the capacity. *)
Theorem handler_steps_in_order (d : fad_defs) (h : list label) (g : globals)
    (e : isr_env) :
  cursors_fit d ->
  reachable d h g ->
  malloc_succeeds e = true ->
  exists a b v g',
    adc_buffer g = Some a /\ dac_buffer g = Some b /\
    b !! Z.to_nat (dac_buffer_pos g) = Some v /\
    adc_timer_intr_handler d e g = Ok (false, g') /\
    calls g' =
      calls g ++
      (if Z.rem (adc_buffer_pos g) (adc_algo_size d) =? 0
       then [Call_malloc sizeof_adc_evt_params;
             Call_fad_app_work_dispatch ADC_BUFFER_READY_EVT
               {| adc_pos := adc_buffer_pos g; dac_pos := dac_buffer_pos g |};
             Call_free]
       else []) ++
      [Call_adc1_get_raw (adc_raw e); Call_dac_output (dac_buffer_pos g) v] /\
    work_queue g' =
      (if (Z.rem (adc_buffer_pos g) (adc_algo_size d) =? 0)
          && (length (work_queue g) <? WORK_QUEUE_LEN d)%nat
       then work_queue g ++
            [{| wi_evt := ADC_BUFFER_READY_EVT;
                wi_params := {| adc_pos := adc_buffer_pos g;
                                dac_pos := dac_buffer_pos g |} |}]
       else work_queue g) /\
    adc_buffer g' = Some (<[Z.to_nat (adc_buffer_pos g) := u16 (adc_raw e)]> a) /\
    dac_buffer g' = Some b /\
    adc_buffer_pos g' = (adc_buffer_pos g + 1) mod ADC_BUFFER_SIZE d /\
    dac_buffer_pos g' = (dac_buffer_pos g + 1) mod ADC_BUFFER_SIZE d.
Proof. exact (handler_effects d h g e). Qed.

Lemma handler_steps_in_order_witness :
  exists g',
    adc_timer_intr_handler cfg (sample 1000) g0 = Ok (false, g') /\
    calls g' =
      calls g0 ++
      [Call_malloc 4;
       Call_fad_app_work_dispatch 0 {| adc_pos := 0; dac_pos := 1792 |};
       Call_free; Call_adc1_get_raw 1000; Call_dac_output 1792 0] /\
    adc_buffer_pos g' = 1 /\ dac_buffer_pos g' = 1793.
Proof.
  destruct (handler_steps_in_order cfg [] g0 (sample 1000)
              cfg_fits g0_reachable eq_refl)
    as (a & b & v & g' & Ha & Hb & Hv & Hrun & Hcalls & _ & _ & _ & Hpa & Hpd).
  exists g'.
  assert (v = 0) as ->.
  { vm_compute in Hb. inversion Hb; subst b. vm_compute in Hv. congruence. }
  split; [exact Hrun |]. split; [exact Hcalls |].
  split; [exact Hpa | exact Hpd].
Defined.

Lemma new_calls_app (g g' : globals) cs :
  calls g' = calls g ++ cs -> new_calls g g' = cs.
Proof. intros H. unfold new_calls. rewrite H. apply drop_app_length. Qed.




(** ** A full work queue *)

(** C9, as stated, fails on the small ring once the worker is stalled for a
    block: the second block boundary finds the queue full, the event is
    dropped, and the run reports nothing: its calls are the five calls of
    any boundary run, and apart from the stored sample and the advanced
    cursors the state is as before. *)
Lemma queue_full_drop_is_silent :
  reachable cfg_small (rev (map L_tick block)) s4 /\
  at_block_boundary cfg_small s4 = true /\
  queue_full cfg_small s4 = true /\
  adc_timer_intr_handler cfg_small (sample 15) s4 =
    Ok (false,
        {| adc_buffer := Some [11; 12; 13; 14; 15; 0; 0; 0];
           dac_buffer := dac_buffer s4;
           adc_buffer_pos := 5; dac_buffer_pos := 1;
           algo_function := algo_function s4;
           work_queue := work_queue s4;
           calls := calls s4 ++
                    [Call_malloc 4;
                     Call_fad_app_work_dispatch 0 {| adc_pos := 4; dac_pos := 0 |};
                     Call_free; Call_adc1_get_raw 15; Call_dac_output 0 0] |}) /\
  ~ diagnostic_run cfg_small (sample 15) s4.
Proof.
  split; [exact s4_reachable |].
  split; [reflexivity |]. split; [reflexivity |].
  split; [vm_compute; reflexivity |].
  intros Hdiag.
  specialize (Hdiag false _ ltac:(vm_compute; reflexivity)).
  vm_compute in Hdiag.
  repeat match goal with
         | H : Exists _ _ |- _ => inversion H; clear H; subst
         end; discriminate.
Qed.

(** C9, amended. When the dispatch at a block boundary finds the queue full,
    the event is dropped silently: the queue is unchanged, the handler calls
    the dispatch exactly once and neither retries nor reports or counts the
    drop; it goes on to store the sample, emit the output sample and advance
    both cursors, and the pipeline runs on: the next run of the handler
    completes as well. *)
Theorem queue_full_drop (d : fad_defs) (h : list label) (g : globals)
    (e : isr_env) :
  cursors_fit d ->
  reachable d h g ->
  malloc_succeeds e = true ->
  at_block_boundary d g = true ->
  queue_full d g = true ->
  exists a v g',
    adc_buffer g = Some a /\
    adc_timer_intr_handler d e g = Ok (false, g') /\
    work_queue g' = work_queue g /\
    new_calls g g' =
      [Call_malloc sizeof_adc_evt_params;
       Call_fad_app_work_dispatch ADC_BUFFER_READY_EVT
         {| adc_pos := adc_buffer_pos g; dac_pos := dac_buffer_pos g |};
       Call_free;
       Call_adc1_get_raw (adc_raw e);
       Call_dac_output (dac_buffer_pos g) v] /\
    adc_buffer g' = Some (<[Z.to_nat (adc_buffer_pos g) := u16 (adc_raw e)]> a) /\
    dac_buffer g' = dac_buffer g /\
    algo_function g' = algo_function g /\
    adc_buffer_pos g' = (adc_buffer_pos g + 1) mod ADC_BUFFER_SIZE d /\
    dac_buffer_pos g' = (dac_buffer_pos g + 1) mod ADC_BUFFER_SIZE d /\
    forall e', malloc_succeeds e' = true ->
      exists g'', adc_timer_intr_handler d e' g' = Ok (false, g'').
Proof.
  intros Hfit Hr Hm Hbd Hfull.
  destruct (handler_effects d h g e Hfit Hr Hm)
    as (a & b & v & g' & Ha & Hb & Hv & Hrun & Hcalls & Hq & Ha' & Hb' & Hpa & Hpd).
  unfold at_block_boundary in Hbd. unfold queue_full in Hfull.
  apply negb_true_iff in Hfull.
  rewrite Hbd in Hcalls. rewrite Hbd, Hfull in Hq. simpl in Hq.
  exists a, v, g'.
  split; [exact Ha |]. split; [exact Hrun |]. split; [exact Hq |].
  split; [exact (new_calls_app g g' _ Hcalls) |].
  split; [exact Ha' |]. split; [congruence |].
  split.
  { destruct (reachable_inv d h g Hfit Hr) as (Hok & _ & _).
    destruct (handler_inv _ _ _ _ _ Hfit Hok Hrun)
      as (? & ? & ? & _ & _ & _ & _ & ->). reflexivity. }
  split; [exact Hpa |]. split; [exact Hpd |].
  intros e' Hm'.
  assert (Hr' : reachable d (L_tick e :: h) g')
    by (apply (reach_step d h g _ g' Hr), (step_tick d e g false g' Hrun)).
  destruct (handler_effects d _ g' e' Hfit Hr' Hm')
    as (_ & _ & _ & g'' & _ & _ & _ & Hrun' & _).
  exists g''. exact Hrun'.
Qed.

Lemma queue_full_drop_witness :
  exists g',
    adc_timer_intr_handler cfg_small (sample 15) s4 = Ok (false, g') /\
    work_queue g' = work_queue s4 /\
    adc_buffer_pos g' = 5 /\ dac_buffer_pos g' = 1.
Proof.
  destruct (queue_full_drop cfg_small (rev (map L_tick block)) s4 (sample 15)
              cfg_small_fits s4_reachable eq_refl eq_refl eq_refl)
    as (a & v & g' & _ & Hrun & Hq & _ & _ & _ & _ & Hpa & Hpd & _).
  exists g'. split; [exact Hrun |]. split; [exact Hq |].
  split; [exact Hpa | exact Hpd].
Defined.

(** ** Samples emitted before the algorithm has written them *)

(** C10. After a successful [adc_buffer_init] both buffers hold
    [ADC_BUFFER_SIZE] zeros and the cursors are 0 and capacity - block size;
    and as long as no algorithm has written the output position under the
    output cursor, the sample the handler emits to the DAC there is 0. *)
Theorem unwritten_output_is_zero (d : fad_defs) (h : list label) (g : globals)
    (e : isr_env) :
  cursors_fit d ->
  reachable d h g ->
  malloc_succeeds e = true ->
  ~ written h (dac_buffer_pos g) ->
  (h = [] ->
     adc_buffer g = Some (replicate (Z.to_nat (ADC_BUFFER_SIZE d)) 0) /\
     dac_buffer g = Some (replicate (Z.to_nat (ADC_BUFFER_SIZE d)) 0) /\
     adc_buffer_pos g = 0 /\
     dac_buffer_pos g = ADC_BUFFER_SIZE d - adc_algo_size d) /\
  exists g',
    adc_timer_intr_handler d e g = Ok (false, g') /\
    last (new_calls g g') = Some (Call_dac_output (dac_buffer_pos g) 0).
Proof.
  intros Hfit Hr Hm Hnw. split.
  - intros ->. inversion Hr as [e0 t0 r0 gi g0' Hbuf Hinit |]; subst.
    destruct (init_ok _ _ _ _ _ _ Hbuf Hinit) as (Ha & Hb & Hpa & Hpd).
    destruct Hfit as [HB HC].
    rewrite u16_small in Hpa by lia. rewrite u16_small in Hpd by lia. auto.
  - destruct (reachable_inv d h g Hfit Hr) as (Hok & _ & Hzero).
    destruct (handler_effects d h g e Hfit Hr Hm)
      as (a & b & v & g' & _ & Hb & Hv & Hrun & Hcalls & _).
    destruct Hok as (_ & _ & _ & _ & _ & _ & _ & Hpd).
    rewrite (Hzero b _ Hb Hpd Hnw) in Hv. inversion Hv; subst v.
    exists g'. split; [exact Hrun |].
    rewrite (new_calls_app g g' _ Hcalls).
    change [Call_adc1_get_raw (adc_raw e);
      Call_dac_output (dac_buffer_pos g) 0]
      with ([Call_adc1_get_raw (adc_raw e)] ++
            [Call_dac_output (dac_buffer_pos g) 0]).
    rewrite app_assoc. apply last_snoc.
Qed.

Lemma g2_reachable :
  reachable cfg [L_algo_write 0 77; L_tick (sample 1000)] g2.
Proof.
  apply (reach_step cfg _ g1 _ g2 g1_reachable).
  assert (Hb : dac_buffer g1 = Some (replicate 2048 0))
    by (vm_compute; reflexivity).
  exact (step_algo_write cfg g1 _ 0 77 Hb ltac:(rewrite length_replicate; lia)).
Qed.

Lemma unwritten_output_is_zero_witness :
  exists g',
    adc_timer_intr_handler cfg (sample 1001) g2 = Ok (false, g') /\
    last (new_calls g2 g') = Some (Call_dac_output 1793 0).
Proof.
  assert (Hnw : ~ written [L_algo_write 0 77; L_tick (sample 1000)]
                    (dac_buffer_pos g2)).
  { intros [s [H | [H | []]]]; vm_compute in H; discriminate H. }
  exact (proj2 (unwritten_output_is_zero cfg _ g2 (sample 1001)
                  cfg_fits g2_reachable eq_refl Hnw)).
Defined.

(** ** Initialisation *)

(** C5, as stated, fails for a block size of 300 on a buffer of 2048
    samples: both allocations and the timer set-up succeed, [adc_init]
    returns [ESP_OK], and the timer can be started. *)
Lemma ragged_block_size_is_accepted :
  Z.rem (ADC_BUFFER_SIZE cfg_ragged) (adc_algo_size cfg_ragged) <> 0 /\
  returned (adc_init cfg_ragged allocs_ok timers_ok power_on) = Some ESP_OK /\
  ~ init_refused cfg_ragged allocs_ok timers_ok.
Proof.
  split; [vm_compute; discriminate |].
  split; [vm_compute; reflexivity |].
  intros (r & g' & Hrun & Hr).
  destruct (adc_init_run cfg_ragged allocs_ok timers_ok power_on)
    as (r0 & gi & cs & _ & Hrun' & _).
  rewrite Hrun' in Hrun. inversion Hrun; subst r. apply Hr. reflexivity.
Qed.

(** With the first allocation failing, [adc_buffer_init] returns
    [ESP_ERR_NO_MEM], and [adc_init], which assigns the status of
    [adc_timer_init] over it, returns [ESP_OK]. *)
Example adc_init_drops_allocation_status :
  returned (adc_buffer_init cfg
              {| adc_calloc_succeeds := false; dac_calloc_succeeds := true |}
              power_on) = Some ESP_ERR_NO_MEM /\
  returned (adc_init cfg
              {| adc_calloc_succeeds := false; dac_calloc_succeeds := true |}
              timers_ok power_on) = Some ESP_OK.
Proof. split; reflexivity. Qed.

(** C5, amended. [adc_buffer_init] reports a failed allocation of either
    buffer with [ESP_ERR_NO_MEM], leaving the cursors as they were, and
    returns [ESP_OK] otherwise: its status depends on the two allocations
    alone, whatever the block size and the capacity are.  [adc_init] always
    returns, and never starts the timer itself. *)
Theorem buffer_init_status (d : fad_defs) (e : alloc_env) (t : timer_env)
    (g : globals) :
  exists r g',
    adc_buffer_init d e g = Ok (r, g') /\
    r = (if adc_calloc_succeeds e && dac_calloc_succeeds e
         then ESP_OK else ESP_ERR_NO_MEM) /\
    (r <> ESP_OK ->
       (adc_buffer g' = None \/ dac_buffer g' = None) /\
       adc_buffer_pos g' = adc_buffer_pos g /\
       dac_buffer_pos g' = dac_buffer_pos g) /\
    exists r' g'',
      adc_init d e t g = Ok (r', g'') /\
      ~ In Call_timer_start (new_calls g g'').
Proof.
  destruct (adc_init_run d e t g) as (r0 & gi & cs & _ & Hinit & Hcs).
  rewrite buffer_init_run. cbv zeta.
  destruct (adc_calloc_succeeds e), (dac_calloc_succeeds e); simpl;
    do 2 eexists; (split; [reflexivity |]); (split; [reflexivity |]);
    (split; [simpl; intros Hr; try (contradiction Hr; reflexivity); auto |]);
    do 2 eexists; (split; [exact Hinit |]);
    (rewrite (new_calls_app g _ cs); [exact Hcs | reflexivity]).
Qed.

(** * Further properties of [fad_adc.c] *)

(** ** What the worker is handed *)

Lemma aligned_room (B C p : Z) :
  0 < B -> (B | C) -> 0 <= p < C -> p mod B = 0 -> p + B <= C.
Proof.
  intros HB [q ->] Hp Hmod.
  apply Z.mod_divide in Hmod; [| lia]. destruct Hmod as [k ->].
  assert (k < q) by nia. nia.
Qed.

Lemma ready_evt_aligned (d : fad_defs) (g : globals) :
  0 < adc_algo_size d ->
  (adc_algo_size d | ADC_BUFFER_SIZE d) ->
  0 < ADC_BUFFER_SIZE d <= 65536 ->
  buffers_ok d g -> one_block_behind d g ->
  at_block_boundary d g = true ->
  block_aligned d (ready_evt g).
Proof.
  intros HB Hdiv HC (a & b & _ & _ & _ & _ & Hpa & Hpd) Hoff Hbd.
  unfold at_block_boundary in Hbd. apply Z.eqb_eq in Hbd.
  rewrite Z.rem_mod_nonneg in Hbd by lia.
  unfold one_block_behind in Hoff.
  assert (Hdac : dac_buffer_pos g =
                 (adc_buffer_pos g - adc_algo_size d) mod ADC_BUFFER_SIZE d).
  { rewrite <- Hoff. rewrite Zminus_mod_idemp_l.
    replace (dac_buffer_pos g + adc_algo_size d - adc_algo_size d)
      with (dac_buffer_pos g) by lia.
    symmetry. apply Z.mod_small. exact Hpd. }
  assert (Hdmod : dac_buffer_pos g mod adc_algo_size d = 0).
  { rewrite Hdac. rewrite Z.mod_mod_divide by exact Hdiv.
    rewrite Zminus_mod, Hbd, Z.mod_same by lia. reflexivity. }
  unfold block_aligned, ready_evt. simpl.
  rewrite (u16_small (adc_buffer_pos g)), (u16_small (dac_buffer_pos g)) by lia.
  repeat split; try lia; try assumption.
  - apply aligned_room; (lia || assumption).
  - apply aligned_room; (lia || assumption).
Qed.

(** [adc_hdl_evt] leaves the installed algorithm and the queue alone. *)
Lemma hdl_evt_keeps_worker evt params (g g' : globals) :
  adc_hdl_evt evt params g = Ok (tt, g') ->
  algo_function g' = algo_function g /\ work_queue g' = work_queue g.
Proof.
  unfold adc_hdl_evt. destruct g as [ga gb pa pd af q cs].
  destruct (evt =? ADC_BUFFER_READY_EVT); run_adc.
  - destruct af; intros H; inversion H; subst; simpl; auto.
  - intros H; inversion H; subst; simpl; auto.
Qed.

Lemma worker_inv_reachable (d : fad_defs) h g :
  0 < adc_algo_size d ->
  (adc_algo_size d | ADC_BUFFER_SIZE d) ->
  0 < ADC_BUFFER_SIZE d <= 65536 ->
  reachable d h g -> worker_inv d g.
Proof.
  intros HB Hdiv HC Hr.
  pose proof (divides_fit d HB Hdiv HC) as Hfit.
  induction Hr as [e t r g0 g Hbuf Hinit | h g l g' Hr IH Hstep].
  - destruct (adc_init_run d e t power_on) as (r' & g1 & cs & Hbuf' & Hinit' & _).
    rewrite Hinit' in Hinit. inversion Hinit; subst. split; [reflexivity |].
    simpl. rewrite buffer_init_run in Hbuf'. cbv zeta in Hbuf'.
    destruct (adc_calloc_succeeds e), (dac_calloc_succeeds e);
      inversion Hbuf'; subst; simpl; constructor.
  - destruct IH as [Halgo Hq].
    destruct (reachable_inv d h g Hfit Hr) as (Hok & Hoff & _).
    inversion Hstep; subst.
    + destruct (handler_inv _ _ _ _ _ Hfit Hok H) as (a & b & v & _ & _ & _ & _ & ->).
      split; [exact Halgo |]. simpl. unfold queue_after.
      destruct (at_block_boundary d g) eqn:Hbd; simpl; [| exact Hq].
      destruct (negb (queue_full d g)); [| exact Hq].
      apply Forall_app. split; [exact Hq |].
      constructor; [| constructor]. simpl. split; [reflexivity |].
      apply ready_evt_aligned; assumption.
    + destruct (hdl_evt_keeps_worker _ _ _ _ H0) as [Ea Eq].
      split.
      * rewrite Ea. destruct g; exact Halgo.
      * rewrite Eq. rewrite H in Hq. inversion Hq; subst.
        destruct g; assumption.
    + split; [destruct g; exact Halgo | destruct g; exact Hq].
Qed.

(** X1. With a block size that divides the capacity, every message waiting
    in the work queue of a running pipeline is a ready event for one whole
    block of each buffer: both offsets are multiples of the block size, the
    two blocks lie inside the buffers (no block straddles the wrap-around),
    and the output block is the block before the input block. *)
Theorem queued_events_are_whole_blocks (d : fad_defs) h g w :
  0 < adc_algo_size d ->
  (adc_algo_size d | ADC_BUFFER_SIZE d) ->
  0 < ADC_BUFFER_SIZE d <= 65536 ->
  reachable d h g ->
  In w (work_queue g) ->
  wi_evt w = ADC_BUFFER_READY_EVT /\
  adc_pos (wi_params w) mod adc_algo_size d = 0 /\
  dac_pos (wi_params w) mod adc_algo_size d = 0 /\
  0 <= adc_pos (wi_params w) /\
  adc_pos (wi_params w) + adc_algo_size d <= ADC_BUFFER_SIZE d /\
  0 <= dac_pos (wi_params w) /\
  dac_pos (wi_params w) + adc_algo_size d <= ADC_BUFFER_SIZE d /\
  dac_pos (wi_params w) =
    (adc_pos (wi_params w) - adc_algo_size d) mod ADC_BUFFER_SIZE d.
Proof.
  intros HB Hdiv HC Hr Hin.
  destruct (worker_inv_reachable d h g HB Hdiv HC Hr) as [_ Hq].
  rewrite Forall_forall in Hq. destruct (Hq w) as [Hevt Hal].
  { apply list_elem_of_In. exact Hin. }
  split; [exact Hevt | exact Hal].
Qed.

Lemma cfg_small_divides : (adc_algo_size cfg_small | ADC_BUFFER_SIZE cfg_small).
Proof. exists 2. reflexivity. Qed.

Lemma queued_events_are_whole_blocks_witness :
  work_queue s4 = [{| wi_evt := 0; wi_params := {| adc_pos := 0; dac_pos := 4 |} |}] /\
  0 + adc_algo_size cfg_small <= ADC_BUFFER_SIZE cfg_small /\
  4 + adc_algo_size cfg_small <= ADC_BUFFER_SIZE cfg_small.
Proof.
  split; [reflexivity |].
  destruct (queued_events_are_whole_blocks cfg_small _ s4
              {| wi_evt := 0; wi_params := {| adc_pos := 0; dac_pos := 4 |} |}
              ltac:(simpl; lia) cfg_small_divides ltac:(simpl; lia)
              s4_reachable ltac:(left; reflexivity))
    as (_ & _ & _ & _ & Ha & _ & Hd & _).
  split; [exact Ha | exact Hd].
Defined.

(** ** The worker, with the algorithm inside the call *)

Lemma offset_ok (l : list Z) (pos : Z) :
  0 <= pos <= Z.of_nat (length l) ->
  Worker.offset (Some l) pos = Ok (drop (Z.to_nat pos) l).
Proof.
  intros H. unfold Worker.offset, deref, r_bind.
  replace ((0 <=? pos) && (pos <=? Z.of_nat (length l))) with true;
    [reflexivity |].
  symmetry. apply andb_true_iff. split; apply Z.leb_le; lia.
Qed.

Lemma worker_run (algo : Worker.algo_func_t) (g : globals) a b p q :
  adc_buffer g = Some a ->
  dac_buffer g = Some b ->
  algo_function g = Some Algo_white ->
  0 <= adc_pos p <= Z.of_nat (length a) ->
  0 <= dac_pos p <= Z.of_nat (length b) ->
  Worker.adc_hdl_evt algo ADC_BUFFER_READY_EVT p (set_work_queue q g) =
    match algo (drop (Z.to_nat (adc_pos p)) a) (drop (Z.to_nat (dac_pos p)) b)
    with
    | Fault f => Fault f
    | Ok (a', b') =>
        Ok (tt,
            set_dac_buffer (Some (take (Z.to_nat (dac_pos p)) b ++ b'))
              (set_adc_buffer (Some (take (Z.to_nat (adc_pos p)) a ++ a'))
                 (record_call (Call_algo_function (adc_pos p) (dac_pos p))
                    (record_call (Call_ESP_LOGI ADC_TAG "Buffer ready")
                       (set_work_queue q g)))))
    end.
Proof.
  intros Ha Hb Hf Hap Hdp.
  destruct g as [ga gb pa pd af qq cs]. simpl in Ha, Hb, Hf. subst ga gb af.
  unfold Worker.adc_hdl_evt. rewrite Z.eqb_refl.
  cbv beta iota zeta delta
    [m_bind m_get m_modify lift emit record_call set_work_queue
     adc_buffer dac_buffer algo_function].
  rewrite (offset_ok a (adc_pos p) Hap), (offset_ok b (dac_pos p) Hdp).
  cbv beta iota delta [deref].
  destruct (algo (drop (Z.to_nat (adc_pos p)) a)
              (drop (Z.to_nat (dac_pos p)) b)) as [[a' b'] | f];
    reflexivity.
Qed.

(** With an algorithm that writes nothing, the worker's step is the one of
    the transition system. *)
Lemma worker_without_writes (d : fad_defs) (g : globals) w q :
  0 < adc_algo_size d ->
  buffers_ok d g -> worker_inv d g ->
  work_queue g = w :: q ->
  Worker.adc_hdl_evt (fun a b => Ok (a, b)) (wi_evt w) (wi_params w)
    (set_work_queue q g) =
  Adc.adc_hdl_evt (wi_evt w) (wi_params w) (set_work_queue q g).
Proof.
  intros HB (a & b & Ha & Hb & Hla & Hlb & _) [Halgo Hall] Hq.
  rewrite Hq in Hall. inversion Hall as [| w' q' [Hevt Hal] _]; subst.
  destruct Hal as (_ & _ & Ha0 & Ha1 & Hd0 & Hd1 & _).
  rewrite Hevt.
  rewrite (worker_run _ g a b (wi_params w) q Ha Hb Halgo) by lia.
  rewrite !take_drop.
  destruct g as [ga gb pa pd af qq cs]. simpl in Ha, Hb, Halgo.
  subst ga gb af. reflexivity.
Qed.

(** X2. When the worker takes the oldest message of a pipeline whose buffers
    are allocated and whose queue holds ready events for whole blocks,
    [adc_hdl_evt] itself does not fault: it logs, forms the two pointers
    from the offsets of the message, each with a whole block behind it, and
    calls the algorithm once.  The rest is the algorithm's.  If it faults,
    the call faults.  If it returns, [adc_hdl_evt] returns: the buffers hold
    what the algorithm left from the two offsets on and are as before in
    front of them, both cursors are as they were and the rest of the queue
    is in order; and when the algorithm kept the length of what it was
    handed, the buffers are still allocated in full and the queue still
    holds ready events for whole blocks. *)
Theorem worker_hands_whole_blocks (d : fad_defs) (algo : Worker.algo_func_t)
    g w q :
  0 < adc_algo_size d ->
  buffers_ok d g ->
  worker_inv d g ->
  work_queue g = w :: q ->
  exists a b,
    adc_buffer g = Some a /\ dac_buffer g = Some b /\
    let ap := Z.to_nat (adc_pos (wi_params w)) in
    let dp := Z.to_nat (dac_pos (wi_params w)) in
    adc_algo_size d <= Z.of_nat (length (drop ap a)) /\
    adc_algo_size d <= Z.of_nat (length (drop dp b)) /\
    match algo (drop ap a) (drop dp b) with
    | Fault f =>
        Worker.adc_hdl_evt algo (wi_evt w) (wi_params w) (set_work_queue q g)
          = Fault f
    | Ok (a', b') =>
        exists g',
          Worker.adc_hdl_evt algo (wi_evt w) (wi_params w)
            (set_work_queue q g) = Ok (tt, g') /\
          new_calls g g' =
            [Call_ESP_LOGI ADC_TAG "Buffer ready";
             Call_algo_function (adc_pos (wi_params w))
               (dac_pos (wi_params w))] /\
          adc_buffer g' = Some (take ap a ++ a') /\
          dac_buffer g' = Some (take dp b ++ b') /\
          adc_buffer_pos g' = adc_buffer_pos g /\
          dac_buffer_pos g' = dac_buffer_pos g /\
          work_queue g' = q /\
          (length a' = length (drop ap a) ->
           length b' = length (drop dp b) ->
           buffers_ok d g' /\ worker_inv d g')
    end.
Proof.
  intros HB (a & b & Ha & Hb & Hla & Hlb & Hpa & Hpd) [Halgo Hall] Hq.
  rewrite Hq in Hall. inversion Hall as [| w' q' [Hevt Hal] Hrest]; subst.
  destruct Hal as (_ & _ & Ha0 & Ha1 & Hd0 & Hd1 & _).
  exists a, b. split; [exact Ha |]. split; [exact Hb |].
  cbv zeta. rewrite !length_drop.
  split; [lia |]. split; [lia |].
  rewrite Hevt.
  rewrite (worker_run algo g a b (wi_params w) q Ha Hb Halgo) by lia.
  destruct (algo (drop (Z.to_nat (adc_pos (wi_params w))) a)
              (drop (Z.to_nat (dac_pos (wi_params w))) b)) as [[a' b'] | f];
    [| reflexivity].
  eexists. split; [reflexivity |].
  split.
  { apply new_calls_app. destruct g; simpl. rewrite <- app_assoc. reflexivity. }
  split; [destruct g; reflexivity |].
  split; [destruct g; reflexivity |].
  split; [destruct g; reflexivity |].
  split; [destruct g; reflexivity |].
  split; [destruct g; reflexivity |].
  intros Hla' Hlb'. split.
  - exists (take (Z.to_nat (adc_pos (wi_params w))) a ++ a'),
           (take (Z.to_nat (dac_pos (wi_params w))) b ++ b').
    split; [destruct g; reflexivity |].
    split; [destruct g; reflexivity |].
    rewrite !length_app, !length_take, Hla', Hlb'.
    split; [lia |]. split; [lia |].
    destruct g; simpl in *. split; assumption.
  - split; [destruct g; exact Halgo |].
    destruct g; exact Hrest.
Qed.

Lemma worker_hands_whole_blocks_witness :
  exists g',
    Worker.adc_hdl_evt (algo_first_sample 77) 0
      {| adc_pos := 0; dac_pos := 4 |} (set_work_queue [] s4) = Ok (tt, g') /\
    adc_buffer g' = Some [11; 12; 13; 14; 0; 0; 0; 0] /\
    dac_buffer g' = Some [0; 0; 0; 0; 77; 0; 0; 0] /\
    work_queue g' = [].
Proof.
  destruct (worker_hands_whole_blocks cfg_small (algo_first_sample 77) s4
              {| wi_evt := 0; wi_params := {| adc_pos := 0; dac_pos := 4 |} |} []
              ltac:(simpl; lia)
              (proj1 (reachable_inv cfg_small _ s4 cfg_small_fits s4_reachable))
              (worker_inv_reachable cfg_small _ s4 ltac:(simpl; lia)
                 cfg_small_divides ltac:(simpl; lia) s4_reachable)
              eq_refl)
    as (a & b & Ha & Hb & Hrest).
  assert (Ea : a = [11; 12; 13; 14; 0; 0; 0; 0])
    by (apply (f_equal (fun o => match o with Some l => l | None => [] end))
          in Ha; symmetry; exact Ha).
  assert (Eb : b = [0; 0; 0; 0; 0; 0; 0; 0])
    by (apply (f_equal (fun o => match o with Some l => l | None => [] end))
          in Hb; symmetry; exact Hb).
  subst a b. destruct Hrest as (_ & _ & Hrun).
  destruct Hrun as (g' & Hrun & _ & Ha' & Hb' & _ & _ & Hq' & _).
  exists g'. split; [exact Hrun |].
  split; [exact Ha' |]. split; [exact Hb' | exact Hq'].
Defined.

(** ** Runs of the handler, one after the other *)

Lemma ticks_run (d : fad_defs) (es : list isr_env) :
  forall h g,
    cursors_fit d -> reachable d h g ->
    Forall (fun e => malloc_succeeds e = true) es ->
    exists g',
      ticks d es g = Ok (tt, g') /\
      reachable d (rev (map L_tick es) ++ h) g' /\
      adc_buffer_pos g' =
        (adc_buffer_pos g + Z.of_nat (length es)) mod ADC_BUFFER_SIZE d /\
      dac_buffer_pos g' =
        (dac_buffer_pos g + Z.of_nat (length es)) mod ADC_BUFFER_SIZE d /\
      dac_buffer g' = dac_buffer g.
Proof.
  induction es as [| e es IH]; intros h g Hfit Hr Hm.
  - exists g. destruct (reachable_inv d h g Hfit Hr) as (Hok & _ & _).
    destruct Hok as (a & b & _ & _ & _ & _ & Hpa & Hpd).
    simpl. rewrite !Z.add_0_r, !Z.mod_small by lia. auto.
  - inversion Hm as [| e' es' He Hes]; subst.
    destruct (handler_effects d h g e Hfit Hr He)
      as (a & b & v & g1 & _ & Hb & _ & Hrun & _ & _ & _ & Hb1 & Hpa & Hpd).
    assert (Hr1 : reachable d (L_tick e :: h) g1)
      by (apply (reach_step d h g _ g1 Hr), (step_tick d e g false g1 Hrun)).
    destruct (IH _ g1 Hfit Hr1 Hes) as (g' & Hticks & Hr' & Hpa' & Hpd' & Hb').
    exists g'. destruct Hfit as [HB HC].
    split; [simpl; unfold m_bind; rewrite Hrun; exact Hticks |].
    split; [simpl; rewrite <- app_assoc; exact Hr' |].
    rewrite Hpa', Hpd', Hpa, Hpd, Hb', Hb1, Hb.
    rewrite !Z.add_mod_idemp_l by lia.
    replace (Z.of_nat (length (e :: es))) with (1 + Z.of_nat (length es))
      by (simpl length; lia).
    rewrite !Z.add_assoc. auto.
Qed.

(** X3. Consecutive runs of the handler move both cursors round the ring
    together: after [n] runs each cursor has advanced by [n] modulo the
    capacity, so a whole lap of [ADC_BUFFER_SIZE] runs brings both back to
    where they were; the output buffer is not written in between. *)
Theorem ticks_advance_cursors (d : fad_defs) h g (es : list isr_env) :
  cursors_fit d ->
  reachable d h g ->
  Forall (fun e => malloc_succeeds e = true) es ->
  exists g',
    ticks d es g = Ok (tt, g') /\
    adc_buffer_pos g' =
      (adc_buffer_pos g + Z.of_nat (length es)) mod ADC_BUFFER_SIZE d /\
    dac_buffer_pos g' =
      (dac_buffer_pos g + Z.of_nat (length es)) mod ADC_BUFFER_SIZE d /\
    dac_buffer g' = dac_buffer g /\
    (Z.of_nat (length es) = ADC_BUFFER_SIZE d ->
       adc_buffer_pos g' = adc_buffer_pos g /\
       dac_buffer_pos g' = dac_buffer_pos g).
Proof.
  intros Hfit Hr Hm.
  destruct (ticks_run d es h g Hfit Hr Hm) as (g' & Hrun & _ & Hpa & Hpd & Hb).
  exists g'. repeat (split; [assumption |]).
  intros Hlap. rewrite Hpa, Hpd, Hlap.
  destruct (reachable_inv d h g Hfit Hr) as (Hok & _ & _).
  destruct Hok as (a & b & _ & _ & _ & _ & Hqa & Hqd). destruct Hfit.
  assert (Hwrap : forall p, 0 <= p < ADC_BUFFER_SIZE d ->
            (p + ADC_BUFFER_SIZE d) mod ADC_BUFFER_SIZE d = p).
  { intros p Hp.
    replace (p + ADC_BUFFER_SIZE d) with (p + 1 * ADC_BUFFER_SIZE d) by lia.
    rewrite Z.mod_add by lia. apply Z.mod_small. exact Hp. }
  rewrite !Hwrap by assumption. auto.
Qed.

Lemma ticks_advance_cursors_witness :
  exists g',
    ticks cfg_small (block ++ block) s0 = Ok (tt, g') /\
    adc_buffer_pos g' = adc_buffer_pos s0 /\
    dac_buffer_pos g' = dac_buffer_pos s0.
Proof.
  destruct (ticks_advance_cursors cfg_small [] s0 (block ++ block)
              cfg_small_fits s0_reachable
              ltac:(repeat constructor))
    as (g' & Hrun & _ & _ & _ & Hlap).
  exists g'. split; [exact Hrun |]. exact (Hlap eq_refl).
Defined.

Lemma boundary_step (B p : Z) :
  0 < B -> p / B - (p - 1) / B = if p mod B =? 0 then 1 else 0.
Proof.
  intros HB. pose proof (Z.div_mod p B ltac:(lia)) as Hp.
  pose proof (Z.mod_pos_bound p B HB) as Hr.
  destruct (p mod B =? 0) eqn:Hz.
  - apply Z.eqb_eq in Hz.
    rewrite <- (Z.div_unique (p - 1) B (p / B - 1) (B - 1)); lia.
  - apply Z.eqb_neq in Hz.
    rewrite <- (Z.div_unique (p - 1) B (p / B) (p mod B - 1)); lia.
Qed.

Lemma boundaries_count (B : Z) (n : nat) :
  0 < B -> forall p,
  boundaries B p n = (p + Z.of_nat n - 1) / B - (p - 1) / B.
Proof.
  intros HB. induction n as [| n IH]; intros p.
  - simpl. rewrite Z.add_0_r. lia.
  - cbn [boundaries]. rewrite IH, <- (boundary_step B p HB).
    replace (p + 1 + Z.of_nat n - 1) with (p + Z.of_nat (S n) - 1) by lia.
    replace (p + 1 - 1) with p by lia. lia.
Qed.

Lemma boundaries_congr (B : Z) (n : nat) :
  0 < B ->
  forall p p', p mod B = p' mod B -> boundaries B p n = boundaries B p' n.
Proof.
  intros HB. induction n as [| n IH]; intros p p' Hp; [reflexivity |].
  cbn [boundaries]. rewrite Hp. f_equal. apply IH.
  rewrite <- (Z.add_mod_idemp_l p), <- (Z.add_mod_idemp_l p'), Hp by lia.
  reflexivity.
Qed.


Lemma ticks_dispatches (d : fad_defs) (es : list isr_env) :
  forall h g,
    0 < adc_algo_size d ->
    (adc_algo_size d | ADC_BUFFER_SIZE d) ->
    0 < ADC_BUFFER_SIZE d <= 65536 ->
    reachable d h g ->
    Forall (fun e => malloc_succeeds e = true) es ->
    exists g' cs,
      ticks d es g = Ok (tt, g') /\
      calls g' = calls g ++ cs /\
      Z.of_nat (length (List.filter is_dispatch cs)) =
        boundaries (adc_algo_size d) (adc_buffer_pos g) (length es).
Proof.
  induction es as [| e es IH]; intros h g HB Hdiv HC Hr Hm.
  - exists g, []. rewrite app_nil_r. auto.
  - inversion Hm as [| e' es' He Hes]; subst.
    pose proof (divides_fit d HB Hdiv HC) as Hfit.
    destruct (reachable_inv d h g Hfit Hr) as (Hok & _ & _).
    destruct Hok as (_ & _ & _ & _ & _ & _ & Hpa0 & _).
    destruct (handler_effects d h g e Hfit Hr He)
      as (a & b & v & g1 & _ & _ & _ & Hrun & Hcalls & _ & _ & _ & Hpa & _).
    assert (Hr1 : reachable d (L_tick e :: h) g1)
      by (apply (reach_step d h g _ g1 Hr), (step_tick d e g false g1 Hrun)).
    destruct (IH _ g1 HB Hdiv HC Hr1 Hes) as (g' & cs' & Hticks & Hcalls' & Hcount).
    eexists g', _.
    split; [simpl; unfold m_bind; rewrite Hrun; exact Hticks |].
    split; [rewrite Hcalls', Hcalls, <- !app_assoc; reflexivity |].
    rewrite !List.filter_app, !length_app, !Nat2Z.inj_add, Hcount.
    cbn [boundaries length].
    rewrite (boundaries_congr _ _ HB (adc_buffer_pos g1) (adc_buffer_pos g + 1)).
    + rewrite Z.rem_mod_nonneg by lia.
      destruct (adc_buffer_pos g mod adc_algo_size d =? 0); simpl; lia.
    + rewrite Hpa. apply Z.mod_mod_divide. exact Hdiv.
Qed.

(** X4. With a block size that divides the capacity the handler announces
    every block exactly once: among any [adc_algo_size] consecutive runs
    exactly one calls the dispatch, and a whole lap of [ADC_BUFFER_SIZE] runs
    calls it capacity / block size times, wherever the runs start. *)
Theorem one_dispatch_per_block (d : fad_defs) h g (es : list isr_env) :
  0 < adc_algo_size d ->
  (adc_algo_size d | ADC_BUFFER_SIZE d) ->
  0 < ADC_BUFFER_SIZE d <= 65536 ->
  reachable d h g ->
  Forall (fun e => malloc_succeeds e = true) es ->
  exists g',
    ticks d es g = Ok (tt, g') /\
    (Z.of_nat (length es) = adc_algo_size d ->
       length (List.filter is_dispatch (new_calls g g')) = 1%nat) /\
    (Z.of_nat (length es) = ADC_BUFFER_SIZE d ->
       Z.of_nat (length (List.filter is_dispatch (new_calls g g'))) =
         ADC_BUFFER_SIZE d / adc_algo_size d).
Proof.
  intros HB Hdiv HC Hr Hm.
  destruct (ticks_dispatches d es h g HB Hdiv HC Hr Hm)
    as (g' & cs & Hrun & Hcalls & Hcount).
  exists g'. split; [exact Hrun |].
  rewrite (new_calls_app g g' cs Hcalls).
  rewrite boundaries_count in Hcount by exact HB.
  split; intros Hn; rewrite Hn in Hcount.
  - replace (adc_buffer_pos g + adc_algo_size d - 1)
      with (adc_buffer_pos g - 1 + 1 * adc_algo_size d) in Hcount by lia.
    rewrite Z.div_add in Hcount by lia. lia.
  - destruct Hdiv as [q Hq]. rewrite Hcount, Hq.
    replace (adc_buffer_pos g + q * adc_algo_size d - 1)
      with (adc_buffer_pos g - 1 + q * adc_algo_size d) by lia.
    rewrite Z.div_add, Z.div_mul by lia. lia.
Qed.

Lemma one_dispatch_per_block_witness :
  exists g',
    ticks cfg_small block s4 = Ok (tt, g') /\
    length (List.filter is_dispatch (new_calls s4 g')) = 1%nat.
Proof.
  destruct (one_dispatch_per_block cfg_small _ s4 block
              ltac:(simpl; lia) cfg_small_divides ltac:(simpl; lia)
              s4_reachable ltac:(repeat constructor))
    as (g' & Hrun & Hone & _).
  exists g'. split; [exact Hrun | exact (Hone eq_refl)].
Defined.

(** ** Initialisation gone wrong *)

(** X5. When either buffer cannot be allocated, [adc_init] goes on to set
    up the timer and answers with the timer's status; if the timer is then
    started, the very first run of the handler faults (it goes through a
    [NULL] buffer, or through a [NULL] event if [malloc] fails too). *)
Theorem failed_allocation_faults_first_run (d : fad_defs) (e : alloc_env)
    (t : timer_env) (ie : isr_env) :
  adc_calloc_succeeds e && dac_calloc_succeeds e = false ->
  exists g,
    adc_init d e t power_on = Ok (timer_isr_callback_add_ret t, g) /\
    In Call_timer_isr_callback_add (calls g) /\
    exists f, adc_timer_intr_handler d ie g = Fault f.
Proof.
  intros Halloc.
  unfold adc_init, adc_timer_init, algo_white_init, adc_buffer_init,
    adc_timer_intr_handler, power_on.
  destruct (adc_calloc_succeeds e), (dac_calloc_succeeds e);
    try discriminate Halloc; run_adc;
    (eexists; split; [reflexivity |]; split; [simpl; tauto |]);
    destruct (adc_algo_size d =? 0); run_adc; eauto;
    simpl; destruct (malloc_succeeds ie); run_adc; eauto;
    destruct (length (@nil work_item) <? WORK_QUEUE_LEN d)%nat; run_adc;
    eauto;
    unfold arr_store; destruct (in_bounds _ _); eauto.
Qed.

Lemma failed_allocation_faults_first_run_witness :
  exists g,
    adc_init cfg {| adc_calloc_succeeds := true; dac_calloc_succeeds := false |}
      timers_ok power_on = Ok (ESP_OK, g) /\
    exists f, adc_timer_intr_handler cfg (sample 1000) g = Fault f.
Proof.
  destruct (failed_allocation_faults_first_run cfg
              {| adc_calloc_succeeds := true; dac_calloc_succeeds := false |}
              timers_ok (sample 1000) eq_refl)
    as (g & Hinit & _ & Hfault).
  exists g. split; [exact Hinit | exact Hfault].
Defined.

(** X6. [adc_init] always runs to the end.  Whatever the allocations and the
    driver calls return, it configures the ADC, tries the allocations (the
    second only if the first succeeded), makes all five timer calls in
    order, installs the algorithm and returns the status of the last timer
    call, [timer_isr_callback_add], alone: neither an allocation failure nor
    a failure of an earlier timer call stops it or shows in its result. *)
Theorem adc_init_runs_to_the_end (d : fad_defs) (e : alloc_env) (t : timer_env)
    (g : globals) :
  exists g',
    adc_init d e t g = Ok (timer_isr_callback_add_ret t, g') /\
    algo_function g' = Some Algo_white /\
    new_calls g g' =
      [Call_adc1_config_width; Call_adc1_config_channel_atten] ++
      (if adc_calloc_succeeds e
       then [Call_calloc (ADC_BUFFER_SIZE d) 2; Call_calloc (ADC_BUFFER_SIZE d) 1]
       else [Call_calloc (ADC_BUFFER_SIZE d) 2]) ++
      [Call_timer_init; Call_timer_set_counter_value; Call_timer_enable_intr;
       Call_timer_set_alarm_value; Call_timer_isr_callback_add;
       Call_algo_white_init].
Proof.
  unfold adc_init, adc_timer_init, algo_white_init, adc_buffer_init.
  destruct g as [ga gb pa pd af q cs].
  destruct (adc_calloc_succeeds e), (dac_calloc_succeeds e); run_adc;
    (eexists; split; [reflexivity |]; split; [reflexivity |]);
    apply new_calls_app; simpl; rewrite <- !app_assoc; reflexivity.
Qed.


(** ** The unchecked [malloc] *)

(** X14. The handler never checks what [malloc] returns.  In a running
    pipeline a run at a block boundary on which [malloc] fails goes through
    the [NULL] pointer; a run off the block boundaries does not call
    [malloc] and completes whether or not memory is left. *)
Theorem handler_malloc_failure (d : fad_defs) h g (e : isr_env) :
  cursors_fit d ->
  reachable d h g ->
  malloc_succeeds e = false ->
  (at_block_boundary d g = true ->
     adc_timer_intr_handler d e g = Fault NullDereference) /\
  (at_block_boundary d g = false ->
     exists g', adc_timer_intr_handler d e g = Ok (false, g') /\
       Forall (fun c => is_heap_call c = false) (new_calls g g')).
Proof.
  intros Hfit Hr Hm. split; intros Hbd.
  - apply handler_null; [destruct Hfit; lia | exact Hbd | exact Hm].
  - destruct (reachable_inv d h g Hfit Hr) as (Hok & _ & _).
    destruct Hok as (a & b & Ha & Hb & Hla & Hlb & Hpa & Hpd).
    destruct (lookup_lt_is_Some_2 b (Z.to_nat (dac_buffer_pos g))) as [v Hv];
      [lia |].
    eexists. split; [apply (handler_run d e g a b v); auto |].
    erewrite new_calls_app by reflexivity.
    unfold dispatch_calls. rewrite Hbd. repeat constructor.
Qed.

Lemma handler_malloc_failure_witness :
  adc_timer_intr_handler cfg {| malloc_succeeds := false; adc_raw := 7 |} g0
    = Fault NullDereference /\
  exists g', adc_timer_intr_handler cfg
               {| malloc_succeeds := false; adc_raw := 7 |} g1 = Ok (false, g').
Proof.
  split.
  - exact (proj1 (handler_malloc_failure cfg [] g0
                    {| malloc_succeeds := false; adc_raw := 7 |}
                    cfg_fits g0_reachable eq_refl) eq_refl).
  - destruct (proj2 (handler_malloc_failure cfg _ g1
                       {| malloc_succeeds := false; adc_raw := 7 |}
                       cfg_fits g1_reachable eq_refl) eq_refl)
      as (g' & Hrun & _).
    exists g'. exact Hrun.
Defined.

(** ** The samples in the ring *)

Lemma ring_inj (C p a b : Z) :
  0 < C -> 0 <= a < C -> 0 <= b < C ->
  (p + a) mod C = (p + b) mod C -> a = b.
Proof.
  intros HC Ha Hb Heq.
  assert (Hz : (a - b) mod C = 0).
  { replace (a - b) with ((p + a) - (p + b)) by lia.
    rewrite Zminus_mod, Heq, Z.sub_diag. apply Z.mod_0_l. lia. }
  apply Z.mod_divide in Hz; [| lia]. destruct Hz as [k Hk].
  assert (k = 0) by nia. lia.
Qed.

Lemma ticks_store_samples (d : fad_defs) (es : list isr_env) :
  forall h g a,
    cursors_fit d -> reachable d h g ->
    Forall (fun e => malloc_succeeds e = true) es ->
    Z.of_nat (length es) <= ADC_BUFFER_SIZE d ->
    adc_buffer g = Some a ->
    exists g' a',
      ticks d es g = Ok (tt, g') /\
      adc_buffer g' = Some a' /\
      (forall j e, es !! j = Some e ->
         a' !! Z.to_nat ((adc_buffer_pos g + Z.of_nat j) mod ADC_BUFFER_SIZE d)
           = Some (u16 (adc_raw e))) /\
      (forall q, 0 <= q < ADC_BUFFER_SIZE d ->
         (forall j, 0 <= j < Z.of_nat (length es) ->
            q <> (adc_buffer_pos g + j) mod ADC_BUFFER_SIZE d) ->
         a' !! Z.to_nat q = a !! Z.to_nat q).
Proof.
  induction es as [| e es IH]; intros h g a Hfit Hr Hm Hlen Ha.
  - exists g, a. split; [reflexivity |]. split; [exact Ha |].
    split; [intros j e Hj; discriminate Hj | reflexivity].
  - inversion Hm as [| e' es' He Hes]; subst.
    destruct (reachable_inv d h g Hfit Hr) as (Hok & _ & _).
    destruct Hok as (a0 & b0 & Ha0 & _ & Hla & _ & Hpa0 & _).
    rewrite Ha in Ha0. inversion Ha0; subst a0.
    destruct (handler_effects d h g e Hfit Hr He)
      as (a1 & b & v & g1 & Ha1 & _ & _ & Hrun & _ & _ & Hbuf & _ & Hpa & _).
    rewrite Ha in Ha1. inversion Ha1; subst a1.
    assert (Hr1 : reachable d (L_tick e :: h) g1)
      by (apply (reach_step d h g _ g1 Hr), (step_tick d e g false g1 Hrun)).
    simpl length in Hlen.
    destruct (IH _ g1 _ Hfit Hr1 Hes ltac:(lia) Hbuf)
      as (g' & a' & Hticks & Ha' & Hnew & Hold).
    pose proof Hfit as [HB HC].
    assert (Hshift : forall j, (adc_buffer_pos g1 + j) mod ADC_BUFFER_SIZE d =
                               (adc_buffer_pos g + (1 + j)) mod ADC_BUFFER_SIZE d).
    { intros j. rewrite Hpa, Z.add_mod_idemp_l by lia. f_equal. lia. }
    exists g', a'.
    split; [simpl; unfold m_bind; rewrite Hrun; exact Hticks |].
    split; [exact Ha' |]. split.
    + intros [| j] e0 Hj.
      * simpl in Hj. inversion Hj; subst e0.
        rewrite Z.add_0_r, Z.mod_small by lia.
        rewrite Hold.
        -- apply list_lookup_insert_eq. lia.
        -- lia.
        -- intros j Hj' Heq. rewrite Hshift in Heq.
           replace (adc_buffer_pos g) with
             ((adc_buffer_pos g + 0) mod ADC_BUFFER_SIZE d) in Heq at 1
             by (rewrite Z.add_0_r; apply Z.mod_small; lia).
           apply ring_inj in Heq; lia.
      * simpl in Hj. specialize (Hnew j e0 Hj). rewrite Hshift in Hnew.
        replace (adc_buffer_pos g + Z.of_nat (S j))
          with (adc_buffer_pos g + (1 + Z.of_nat j)) by lia.
        exact Hnew.
    + intros q Hq Hfree. rewrite Hold.
      * apply list_lookup_insert_ne. intros Heq.
        apply (Hfree 0); [simpl; lia |].
        rewrite Z.add_0_r, Z.mod_small by lia. lia.
      * exact Hq.
      * intros j Hj. rewrite Hshift. apply Hfree. simpl. lia.
Qed.

(** X15. The input buffer holds what the handler sampled, in order: after at
    most [ADC_BUFFER_SIZE] consecutive runs the [j]-th sample read, cut to 16
    bits, stands [j] places after the place the input cursor started from
    (modulo the capacity), and every other place of the buffer is as
    before. *)
Theorem ring_holds_samples_in_order (d : fad_defs) h g a (es : list isr_env) :
  cursors_fit d ->
  reachable d h g ->
  Forall (fun e => malloc_succeeds e = true) es ->
  Z.of_nat (length es) <= ADC_BUFFER_SIZE d ->
  adc_buffer g = Some a ->
  exists g' a',
    ticks d es g = Ok (tt, g') /\
    adc_buffer g' = Some a' /\
    (forall j e, es !! j = Some e ->
       a' !! Z.to_nat ((adc_buffer_pos g + Z.of_nat j) mod ADC_BUFFER_SIZE d)
         = Some (u16 (adc_raw e))) /\
    (forall q, 0 <= q < ADC_BUFFER_SIZE d ->
       (forall j, 0 <= j < Z.of_nat (length es) ->
          q <> (adc_buffer_pos g + j) mod ADC_BUFFER_SIZE d) ->
       a' !! Z.to_nat q = a !! Z.to_nat q).
Proof. exact (ticks_store_samples d es h g a). Qed.

Lemma ring_holds_samples_in_order_witness :
  exists g' a',
    ticks cfg_small block s4 = Ok (tt, g') /\
    adc_buffer g' = Some a' /\
    a' !! 6%nat = Some 13 /\ a' !! 0%nat = Some 11.
Proof.
  assert (Ha : adc_buffer s4 = Some [11; 12; 13; 14; 0; 0; 0; 0])
    by reflexivity.
  destruct (ring_holds_samples_in_order cfg_small _ s4 _ block
              cfg_small_fits s4_reachable ltac:(repeat constructor)
              ltac:(simpl; lia) Ha)
    as (g' & a' & Hrun & Ha' & Hnew & Hold).
  exists g', a'. split; [exact Hrun |]. split; [exact Ha' |]. split.
  - exact (Hnew 2%nat (sample 13) eq_refl).
  - apply (Hold 0 ltac:(simpl; lia)).
    intros j Hj. simpl in Hj.
    assert (j = 0 \/ j = 1 \/ j = 2 \/ j = 3) as [-> | [-> | [-> | ->]]] by lia;
      discriminate.
Defined.


End AdcProperties.

(** * Properties of the masking algorithm *)

Section MaskingProperties.
Import Ieee Masking MaskingSpec MaskingScenario.

(** Symbolic execution of the monadic code of [algo_masking.c]. *)
Ltac run_masking :=
  cbv beta iota zeta delta
    [m_bind m_ret m_get m_modify m_fail lift r_bind deref
     emit record_call set_read_size set_period set_peak set_plan set_input
     s_algo_template_read_size s_algo_sampling_freq s_algo_total_time
     s_algo_max_magnitude s_algo_fundamental_freq s_period switching_voltage
     real_fft_plan calls size input output].

(** *** The order on floats *)

Ltac sf_order :=
  repeat match goal with
         | s : bool |- _ => destruct s
         end;
  simpl in *; try discriminate; try reflexivity;
  repeat match goal with
         | H : context [Z.compare ?a ?b] |- _ =>
             destruct (Z.compare_spec a b); subst; simpl in H
         | |- context [Z.compare ?a ?b] =>
             destruct (Z.compare_spec a b); subst; simpl
         | H : context [Pos.compare_cont Eq ?a ?b] |- _ =>
             change (Pos.compare_cont Eq a b) with (Pos.compare a b) in H;
             destruct (Pos.compare_spec a b); subst; simpl in H
         | |- context [Pos.compare_cont Eq ?a ?b] =>
             change (Pos.compare_cont Eq a b) with (Pos.compare a b);
             destruct (Pos.compare_spec a b); subst; simpl
         end;
  try discriminate; try reflexivity; try lia.

Lemma SFltb_irrefl x : SFltb x x = false.
Proof. unfold SFltb, SFcompare. destruct x; sf_order. Qed.

Lemma SFltb_trans x y z :
  SFltb x y = true -> SFltb y z = true -> SFltb x z = true.
Proof. unfold SFltb, SFcompare. destruct x, y, z; intros Hxy Hyz; sf_order. Qed.

Lemma SFltb_eqb_r x y z :
  SFltb x z = true -> SFeqb y z = true -> SFltb x y = true.
Proof.
  unfold SFltb, SFeqb, SFcompare. destruct x, y, z; intros Hxz Hyz; sf_order.
Qed.

Lemma f_gt_irrefl x : f_gt x x = false.
Proof. apply SFltb_irrefl. Qed.


(** Nothing exceeds what exceeds an upper bound. *)
Lemma f_gt_bound x m m' :
  f_gt x m = false -> f_gt m' m = true -> f_gt x m' = false.
Proof.
  unfold f_gt. intros Hx Hm. destruct (SFltb m' x) eqn:Hc; [| reflexivity].
  rewrite (SFltb_trans _ _ _ Hm Hc) in Hx. discriminate Hx.
Qed.

(** *** The two loops *)

Lemma set_plan_same (g : globals) plan :
  real_fft_plan g = Some plan ->
  set_plan (Some (set_input (input plan) plan)) g = g.
Proof. destruct g, plan. simpl. intros ->. reflexivity. Qed.

Lemma set_peak_same (g : globals) :
  set_peak (s_algo_max_magnitude g) (s_algo_fundamental_freq g) g = g.
Proof. destruct g. reflexivity. Qed.

(** The copy loop only replaces the plan's input array. *)
Lemma copy_loop_run in_buff in_pos (ks : list Z) :
  forall (g : globals) plan,
    real_fft_plan g = Some plan ->
    (forall i, In i ks ->
       0 <= in_pos + i < Z.of_nat (length in_buff) /\
       0 <= i < Z.of_nat (length (input plan))) ->
    exists inp,
      length inp = length (input plan) /\
      for_each ks (copy_sample in_buff in_pos) g =
        Ok (tt, set_plan (Some (set_input inp plan)) g).
Proof.
  induction ks as [| i ks IH]; intros g plan Hplan Hin.
  - exists (input plan). split; [reflexivity |].
    rewrite (set_plan_same g plan Hplan). reflexivity.
  - destruct (Hin i (or_introl eq_refl)) as [Hb Hi].
    destruct (lookup_lt_is_Some_2 in_buff (Z.to_nat (in_pos + i))) as [v Hv];
      [lia |].
    set (inp1 := <[Z.to_nat i := float_of_int v]> (input plan)).
    set (g1 := set_plan (Some (set_input inp1 plan)) g).
    assert (Hstep : copy_sample in_buff in_pos i g = Ok (tt, g1)).
    { unfold copy_sample, g1, inp1. clear IH Hin g1 inp1.
      destruct g, plan; simpl in *; subst. run_masking.
      rewrite (arr_load_ok in_buff (in_pos + i) v) by (try lia; exact Hv).
      rewrite arr_store_ok by lia. reflexivity. }
    destruct (IH g1 (set_input inp1 plan)) as (inp & Hlen & Hrun).
    + destruct g; reflexivity.
    + intros i' Hi'. simpl. unfold inp1. rewrite length_insert.
      apply Hin. right. exact Hi'.
    + exists inp. split.
      * rewrite Hlen. simpl. unfold inp1. apply length_insert.
      * simpl. unfold m_bind at 1. rewrite Hstep. rewrite Hrun.
        destruct g, plan; reflexivity.
Qed.

Lemma bin_magnitude_ok (plan : fft_config_t) k :
  1 <= k < Z.quot (size plan) 2 ->
  size plan <= Z.of_nat (length (output plan)) ->
  exists re im,
    output plan !! Z.to_nat (2 * k) = Some re /\
    output plan !! Z.to_nat (2 * k + 1) = Some im /\
    bin_magnitude (output plan) k = Ok (spec_magnitude re im) /\
    mag_of plan k = spec_magnitude re im.
Proof.
  intros Hk Hsz.
  assert (Hq : 2 * Z.quot (size plan) 2 <= size plan).
  { destruct (Z.le_gt_cases 0 (size plan)) as [Hpos | Hneg].
    - rewrite Z.quot_div_nonneg by lia.
      apply Z.mul_div_le. lia.
    - exfalso.
      assert (Z.quot (size plan) 2 <= 0).
      { replace (size plan) with (- (- size plan)) by lia.
        rewrite Z.quot_opp_l by lia.
        pose proof (Z.quot_pos (- size plan) 2). lia. }
      lia. }
  destruct (lookup_lt_is_Some_2 (output plan) (Z.to_nat (2 * k))) as [re Hre];
    [lia |].
  destruct (lookup_lt_is_Some_2 (output plan) (Z.to_nat (2 * k + 1))) as [im Him];
    [lia |].
  exists re, im. split; [exact Hre |]. split; [exact Him |].
  assert (Hm : bin_magnitude (output plan) k = Ok (spec_magnitude re im)).
  { unfold bin_magnitude, r_bind.
    rewrite (arr_load_ok _ (2 * k) re) by (try lia; exact Hre).
    rewrite (arr_load_ok _ (2 * k + 1) im) by (try lia; exact Him).
    reflexivity. }
  split; [exact Hm |]. unfold mag_of. rewrite Hm. reflexivity.
Qed.

(** The tracking loop is a fold of [peak_step] over the bins. *)
Lemma track_loop_run (ks : list Z) :
  forall (g : globals) plan,
    real_fft_plan g = Some plan ->
    (forall k, In k ks -> exists m, bin_magnitude (output plan) k = Ok m) ->
    for_each ks track_bin g =
      let st := fold_left (peak_step plan (s_algo_total_time g)) ks
                  (s_algo_max_magnitude g, s_algo_fundamental_freq g) in
      Ok (tt, set_peak (fst st) (snd st) g).
Proof.
  induction ks as [| k ks IH]; intros g plan Hplan Hin; cbv zeta.
  - simpl. rewrite set_peak_same. reflexivity.
  - destruct (Hin k (or_introl eq_refl)) as [m Hm].
    assert (Hmag : mag_of plan k = m) by (unfold mag_of; rewrite Hm; reflexivity).
    simpl. unfold m_bind at 1.
    assert (Hstep : track_bin k g =
      Ok (tt, let st := peak_step plan (s_algo_total_time g)
                          (s_algo_max_magnitude g, s_algo_fundamental_freq g) k in
              set_peak (fst st) (snd st) g)).
    { unfold track_bin, peak_step. rewrite Hmag. cbv zeta.
      clear IH Hin Hmag. destruct g, plan; simpl in *; subst. run_masking.
      rewrite Hm. simpl. destruct (f_gt m _); reflexivity. }
    rewrite Hstep. cbv zeta.
    set (st := peak_step plan _ _ k).
    rewrite (IH (set_peak (fst st) (snd st) g) plan).
    + cbv zeta. destruct g, st; reflexivity.
    + destruct g; exact Hplan.
    + intros k' Hk'. apply Hin. right. exact Hk'.
Qed.

(** What the fold over the first [n] bins has found: nothing seen exceeds
    the running peak, and the pair is either the one the fold started from
    or that of the first bin that attains the peak. *)
Lemma peak_fold_inv (plan : fft_config_t) (T m0 f0 : spec_float) (n : nat) :
  let st := fold_left (peak_step plan T) (seqZ 1 (Z.of_nat n)) (m0, f0) in
  (forall j, 1 <= j < 1 + Z.of_nat n -> f_gt (mag_of plan j) (fst st) = false) /\
  (st = (m0, f0) \/
   exists k, 1 <= k < 1 + Z.of_nat n /\
     st = (mag_of plan k, bin_frequency T k) /\
     f_gt (mag_of plan k) m0 = true /\
     forall j, 1 <= j < k ->
       f_gt (mag_of plan j) (mag_of plan k) = false /\
       SFeqb (mag_of plan j) (mag_of plan k) = false).
Proof.
  cbv zeta. induction n as [| n [IHle IHst]].
  - simpl. split; [intros j Hj; lia | left; reflexivity].
  - rewrite seqZ_S, fold_left_app. simpl.
    set (st := fold_left (peak_step plan T) (seqZ 1 (Z.of_nat n)) (m0, f0)) in *.
    set (k' := 1 + Z.of_nat n).
    assert (Hstep : peak_step plan T st k' =
                    if f_gt (mag_of plan k') (fst st)
                    then (mag_of plan k', bin_frequency T k') else st)
      by reflexivity.
    rewrite Hstep. clear Hstep.
    destruct (f_gt (mag_of plan k') (fst st)) eqn:Hgt; simpl.
    + (* bin k' raises the peak *)
      assert (Hprev : forall j, 1 <= j < k' ->
                f_gt (mag_of plan j) (mag_of plan k') = false /\
                SFeqb (mag_of plan j) (mag_of plan k') = false).
      { intros j Hj. specialize (IHle j Hj). split.
        - exact (f_gt_bound _ _ _ IHle Hgt).
        - destruct (SFeqb (mag_of plan j) (mag_of plan k')) eqn:He;
            [| reflexivity].
          unfold f_gt in *. rewrite (SFltb_eqb_r _ _ _ Hgt He) in IHle.
          discriminate IHle. }
      split.
      * intros j Hj. destruct (Z.eq_dec j k') as [-> | Hne].
        -- apply f_gt_irrefl.
        -- apply Hprev. lia.
      * right. exists k'. split; [lia |]. split; [reflexivity |].
        split; [| exact Hprev].
        destruct IHst as [Hst | (k & Hk & Hst & Hk0 & _)];
          rewrite Hst in Hgt; simpl in Hgt.
        -- exact Hgt.
        -- unfold f_gt in *. exact (SFltb_trans _ _ _ Hk0 Hgt).
    + (* the peak stands *)
      split.
      * intros j Hj. destruct (Z.eq_dec j k') as [-> | Hne].
        -- exact Hgt.
        -- apply IHle. lia.
      * destruct IHst as [Hst | (k & Hk & Hst & Hk0 & Hprev)].
        -- left. exact Hst.
        -- right. exists k. split; [lia |]. auto.
Qed.

(** One [process] call, in closed form. *)
Lemma algo_masking_run (g : globals) plan in_buff out_buff in_pos out_pos ms :
  call_ok g plan in_buff in_pos ->
  exists inp,
    length inp = length (input plan) /\
    algo_masking in_buff out_buff in_pos out_pos ms g =
      let st := fold_left (peak_step plan (s_algo_total_time g))
                  (seqZ 1 (Z.quot (size plan) 2 - 1))
                  (s_algo_max_magnitude g, s_algo_fundamental_freq g) in
      Ok (out_buff,
          record_call (Call_ESP_LOGI ALGO_TAG "running algo... %d")
            (set_peak (fst st) (snd st)
               (set_plan (Some (set_input inp plan)) g))).
Proof.
  intros (Hplan & Hpos & Hin & Hinp & Hout).
  destruct (copy_loop_run in_buff in_pos
              (seqZ 0 (s_algo_template_read_size g)) g plan Hplan)
    as (inp & Hlen & Hcopy).
  { intros i Hi. apply list_elem_of_In, elem_of_seqZ in Hi. lia. }
  exists inp. split; [exact Hlen |].
  set (g1 := set_plan (Some (set_input inp plan)) g) in *.
  assert (Hplan1 : real_fft_plan g1 = Some (set_input inp plan))
    by (destruct g; reflexivity).
  pose proof (track_loop_run (seqZ 1 (Z.quot (size plan) 2 - 1)) g1
                (set_input inp plan) Hplan1) as Htrack.
  unfold algo_masking.
  unfold m_bind at 1. unfold m_get at 1.
  unfold m_bind at 1. rewrite Hcopy.
  unfold m_bind at 1. unfold m_get at 1.
  unfold m_bind at 1. rewrite Hplan1. unfold lift, deref.
  unfold m_bind at 1.
  change (size (set_input inp plan)) with (size plan).
  rewrite Htrack.
  - cbv zeta. unfold m_bind, emit, m_modify, m_ret.
    replace (s_algo_total_time g1) with (s_algo_total_time g)
      by (destruct g; reflexivity).
    replace (s_algo_max_magnitude g1) with (s_algo_max_magnitude g)
      by (destruct g; reflexivity).
    replace (s_algo_fundamental_freq g1) with (s_algo_fundamental_freq g)
      by (destruct g; reflexivity).
    reflexivity.
  - intros k Hk. apply list_elem_of_In, elem_of_seqZ in Hk.
    destruct (bin_magnitude_ok plan k ltac:(lia) Hout)
      as (re & im & _ & _ & Hm & _).
    exists (spec_magnitude re im). exact Hm.
Qed.

Lemma new_calls_app_m (g g' : globals) cs :
  calls g' = calls g ++ cs -> new_calls g g' = cs.
Proof. intros H. unfold new_calls. rewrite H. apply drop_app_length. Qed.

Lemma seqZ_to_nat m n : seqZ m n = seqZ m (Z.of_nat (Z.to_nat n)).
Proof. unfold seqZ. rewrite Nat2Z.id. reflexivity. Qed.

(** ** Peak tracking *)



Lemma m0_call_ok : call_ok m0 plan8 in8 0.
Proof. unfold call_ok. simpl. repeat split; try reflexivity; lia. Qed.


(** On the eight-point plan the peak is the magnitude 10 of bin 3. *)
Example peak_of_plan8 :
  algo_masking in8 out8 0 0 1 m0 = Ok (out8, m1) /\
  s_algo_max_magnitude m1 = float_of_int 10 /\
  mag_of plan8 1 = float_of_int 5 /\ mag_of plan8 3 = float_of_int 10.
Proof. vm_compute. auto. Qed.

(** ** The transform and the output block *)

(** C4, on the code. A [process] call copies the input block into the
    plan's input array and scans the plan's output array, but it never calls
    [fft_execute] (its only call is the log line), it leaves the plan's
    output array as it found it, and it hands the caller's output block back
    unwritten. *)
Theorem process_neither_transforms_nor_writes (g : globals) plan in_buff
    out_buff in_pos out_pos ms :
  call_ok g plan in_buff in_pos ->
  exists g' plan',
    algo_masking in_buff out_buff in_pos out_pos ms g = Ok (out_buff, g') /\
    new_calls g g' = [Call_ESP_LOGI ALGO_TAG "running algo... %d"] /\
    ~ In Call_fft_execute (new_calls g g') /\
    real_fft_plan g' = Some plan' /\
    output plan' = output plan.
Proof.
  intros Hok.
  destruct (algo_masking_run g plan in_buff out_buff in_pos out_pos ms Hok)
    as (inp & _ & Hrun).
  cbv zeta in Hrun.
  set (st := fold_left _ _ _) in Hrun.
  eexists. exists (set_input inp plan). split; [exact Hrun |].
  assert (Hcalls : new_calls g
            (record_call (Call_ESP_LOGI ALGO_TAG "running algo... %d")
               (set_peak (fst st) (snd st)
                  (set_plan (Some (set_input inp plan)) g))) =
          [Call_ESP_LOGI ALGO_TAG "running algo... %d"]).
  { apply new_calls_app_m. destruct g; reflexivity. }
  rewrite Hcalls. split; [reflexivity |].
  split; [simpl; intuition discriminate |].
  split; [destruct g; reflexivity | reflexivity].
Qed.

Lemma p0_call_ok : call_ok p0 plan2048 in2048 0.
Proof.
  unfold call_ok. repeat split; vm_compute; (reflexivity || discriminate).
Qed.

Lemma process_neither_transforms_nor_writes_witness :
  exists g',
    algo_masking in2048 out2048 0 0 1 p0 = Ok (out2048, g') /\
    new_calls p0 g' = [Call_ESP_LOGI ALGO_TAG "running algo... %d"].
Proof.
  destruct (process_neither_transforms_nor_writes p0 plan2048 in2048 out2048
              0 0 1 p0_call_ok) as (g' & plan' & Hrun & Hcalls & _).
  exists g'. split; [exact Hrun | exact Hcalls].
Defined.

(** ** The analysis window *)

(** C6, on the code. The window duration is computed by the integer
    division 2048 / 40000, which is 0: the stored [s_algo_total_time] is
    0.0, not 0.0512, and the frequency [k / total_time] of each of the bins
    1 to 1023 of a 2048-point block is +infinity, not a finite number. *)
Theorem total_time_is_zero (plan : option fft_config_t) (k : Z) :
  1 <= k < 1024 ->
  Z.quot 2048 40000 = 0 /\
  s_algo_total_time (static_init plan) = S754_zero false /\
  bin_frequency (s_algo_total_time (static_init plan)) k = S754_infinity false /\
  is_finite (bin_frequency (s_algo_total_time (static_init plan)) k) = false.
Proof.
  intros Hk.
  assert (Hall : forallb (fun k => is_pos_infinity (bin_frequency f_zero k))
                   (seqZ 1 1023) = true) by (vm_compute; reflexivity).
  assert (Hin : In k (seqZ 1 1023)) by (apply list_elem_of_In, elem_of_seqZ; lia).
  pose proof (proj1 (forallb_forall _ _) Hall k Hin) as Hinf.
  assert (Hfreq : bin_frequency f_zero k = S754_infinity false).
  { simpl in Hinf.
    destruct (bin_frequency f_zero k) as [| [|] | |]; try discriminate Hinf.
    reflexivity. }
  change (s_algo_total_time (static_init plan)) with f_zero.
  rewrite Hfreq. auto.
Qed.

Lemma total_time_is_zero_witness :
  bin_frequency (s_algo_total_time (static_init None)) 7 = S754_infinity false.
Proof.
  exact (proj1 (proj2 (proj2 (total_time_is_zero None 7 ltac:(lia))))).
Defined.

(** ** Switching variants *)

(** C8, as stated, fails after a call has seen the eight-point plan: the
    peak magnitude is 10, and it is still 10 after [deinit] and [init]. *)
Lemma switch_keeps_old_peak :
  s_algo_max_magnitude m1 = float_of_int 10 /\
  s_algo_max_magnitude (state_after (switch_variant params8) m1) = float_of_int 10 /\
  ~ switch_clears_peak params8 m1.
Proof.
  split; [vm_compute; reflexivity |]. split; [vm_compute; reflexivity |].
  intros Hclear.
  destruct (Hclear (state_after (switch_variant params8) m1)
              ltac:(vm_compute; reflexivity)) as [Hmax _].
  vm_compute in Hmax. discriminate Hmax.
Qed.

(** C8, amended. [algo_masking_init] sets the read size and the period and
    calls [fft_init]; [algo_masking_deinit] does nothing.  Neither touches
    the peak magnitude, the fundamental frequency, the window duration or
    the plan: what was stored before a switch is what the first [process]
    call after it starts from.  The peak state is zero only at program
    start, from the initialisers of the two variables. *)
Theorem switch_preserves_peak (params : fad_algo_init_params_t) (g : globals) :
  (exists g',
     switch_variant params g = Ok (tt, g') /\
     s_algo_max_magnitude g' = s_algo_max_magnitude g /\
     s_algo_fundamental_freq g' = s_algo_fundamental_freq g /\
     s_algo_total_time g' = s_algo_total_time g /\
     real_fft_plan g' = real_fft_plan g /\
     s_algo_template_read_size g' = read_size params /\
     s_period g' = period params /\
     new_calls g g' = [Call_fft_init (read_size params)]) /\
  forall plan,
    s_algo_max_magnitude (static_init plan) = f_zero /\
    s_algo_fundamental_freq (static_init plan) = f_zero.
Proof.
  split; [| intros plan; split; reflexivity].
  eexists. split; [reflexivity |].
  destruct g; simpl. repeat split; try reflexivity.
  apply new_calls_app_m. reflexivity.
Qed.

(** * Further properties of [algo_masking.c] *)

(** ** The copy of the input block *)

(** What the copy loop leaves in the plan's input array. *)
Lemma copy_loop_content in_buff in_pos (ks : list Z) :
  forall (g : globals) plan,
    real_fft_plan g = Some plan ->
    (forall i, In i ks ->
       0 <= in_pos + i < Z.of_nat (length in_buff) /\
       0 <= i < Z.of_nat (length (input plan))) ->
    exists inp,
      length inp = length (input plan) /\
      for_each ks (copy_sample in_buff in_pos) g =
        Ok (tt, set_plan (Some (set_input inp plan)) g) /\
      (forall i v, In i ks ->
         in_buff !! Z.to_nat (in_pos + i) = Some v ->
         inp !! Z.to_nat i = Some (float_of_int v)) /\
      (forall j, (forall i, In i ks -> Z.to_nat i <> j) ->
         inp !! j = input plan !! j).
Proof.
  induction ks as [| i ks IH]; intros g plan Hplan Hin.
  - exists (input plan). split; [reflexivity |].
    rewrite (set_plan_same g plan Hplan).
    split; [reflexivity |]. split; [intros i v [] | reflexivity].
  - destruct (Hin i (or_introl eq_refl)) as [Hb Hi].
    destruct (lookup_lt_is_Some_2 in_buff (Z.to_nat (in_pos + i))) as [v Hv];
      [lia |].
    set (inp1 := <[Z.to_nat i := float_of_int v]> (input plan)).
    set (g1 := set_plan (Some (set_input inp1 plan)) g).
    assert (Hstep : copy_sample in_buff in_pos i g = Ok (tt, g1)).
    { unfold copy_sample, g1, inp1. clear IH Hin g1 inp1.
      destruct g, plan; simpl in *; subst. run_masking.
      rewrite (arr_load_ok in_buff (in_pos + i) v) by (try lia; exact Hv).
      rewrite arr_store_ok by lia. reflexivity. }
    destruct (IH g1 (set_input inp1 plan)) as (inp & Hlen & Hrun & Hcopied & Hrest).
    + destruct g; reflexivity.
    + intros i' Hi'. simpl. unfold inp1. rewrite length_insert.
      apply Hin. right. exact Hi'.
    + exists inp. split.
      { rewrite Hlen. simpl. unfold inp1. apply length_insert. }
      split.
      { simpl. unfold m_bind at 1. rewrite Hstep. rewrite Hrun.
        destruct g, plan; reflexivity. }
      split.
      * intros i' v' [<- | Hi'] Hv'.
        -- destruct (in_dec Z.eq_dec i ks) as [Hks | Hks].
           ++ exact (Hcopied i v' Hks Hv').
           ++ rewrite Hrest.
              ** simpl. unfold inp1. rewrite Hv in Hv'. inversion Hv'; subst.
                 apply list_lookup_insert_eq. lia.
              ** intros i'' Hi'' Heq. apply Hks.
                 destruct (Hin i'' (or_intror Hi'')) as [_ Hb''].
                 replace i with i'' by lia. exact Hi''.
        -- exact (Hcopied i' v' Hi' Hv').
      * intros j Hj. rewrite Hrest.
        -- simpl. unfold inp1. apply list_lookup_insert_ne.
           apply (Hj i). left. reflexivity.
        -- intros i' Hi'. apply Hj. right. exact Hi'.
Qed.

(** A 16-bit sample converts to [float] without any rounding. *)
Lemma exact_from_spec (n : nat) :
  forall v w, exact_from n v = true -> v <= w < v + Z.of_nat n ->
    integer_value (float_of_int w) = Some w.
Proof.
  induction n as [| n IH]; intros v w Hall Hw; [lia |].
  cbn [exact_from] in Hall. apply andb_true_iff in Hall as [Hv Hrest].
  destruct (Z.eq_dec w v) as [-> | Hne].
  - destruct (integer_value (float_of_int v)) as [x |]; [| discriminate Hv].
    apply Z.eqb_eq in Hv. subst x. reflexivity.
  - apply (IH (v + 1) w Hrest). lia.
Qed.

Lemma float_of_sample_exact (v : Z) :
  0 <= v < 65536 -> integer_value (float_of_int v) = Some v.
Proof.
  intros Hv.
  assert (Hall : exact_from (Z.to_nat 65536) 0 = true)
    by (vm_compute; reflexivity).
  apply (exact_from_spec _ 0 v Hall). lia.
Qed.

(** The rest of a [process] call, once the copy loop has run. *)
Lemma algo_masking_after_copy (g : globals) plan inp in_buff out_buff in_pos
    out_pos ms :
  real_fft_plan g = Some plan ->
  size plan <= Z.of_nat (length (output plan)) ->
  for_each (seqZ 0 (s_algo_template_read_size g))
    (copy_sample in_buff in_pos) g =
    Ok (tt, set_plan (Some (set_input inp plan)) g) ->
  algo_masking in_buff out_buff in_pos out_pos ms g =
    let st := fold_left (peak_step plan (s_algo_total_time g))
                (seqZ 1 (Z.quot (size plan) 2 - 1))
                (s_algo_max_magnitude g, s_algo_fundamental_freq g) in
    Ok (out_buff,
        record_call (Call_ESP_LOGI ALGO_TAG "running algo... %d")
          (set_peak (fst st) (snd st)
             (set_plan (Some (set_input inp plan)) g))).
Proof.
  intros Hplan Hout Hcopy.
  set (g1 := set_plan (Some (set_input inp plan)) g) in *.
  assert (Hplan1 : real_fft_plan g1 = Some (set_input inp plan))
    by (destruct g; reflexivity).
  pose proof (track_loop_run (seqZ 1 (Z.quot (size plan) 2 - 1)) g1
                (set_input inp plan) Hplan1) as Htrack.
  unfold algo_masking.
  unfold m_bind at 1. unfold m_get at 1.
  unfold m_bind at 1. rewrite Hcopy.
  unfold m_bind at 1. unfold m_get at 1.
  unfold m_bind at 1. rewrite Hplan1. unfold lift, deref.
  unfold m_bind at 1.
  change (size (set_input inp plan)) with (size plan).
  rewrite Htrack.
  - cbv zeta. unfold m_bind, emit, m_modify, m_ret.
    replace (s_algo_total_time g1) with (s_algo_total_time g)
      by (destruct g; reflexivity).
    replace (s_algo_max_magnitude g1) with (s_algo_max_magnitude g)
      by (destruct g; reflexivity).
    replace (s_algo_fundamental_freq g1) with (s_algo_fundamental_freq g)
      by (destruct g; reflexivity).
    reflexivity.
  - intros k Hk. apply list_elem_of_In, elem_of_seqZ in Hk.
    destruct (bin_magnitude_ok plan k ltac:(lia) Hout)
      as (re & im & _ & _ & Hm & _).
    exists (spec_magnitude re im). exact Hm.
Qed.

(** X7. A [process] call on a large enough plan and input buffer copies the
    block faithfully: it returns, entry [i] of the plan's input array is the
    [float] conversion of [in_buff[in_pos + i]] for every [i] below the read
    size, the entries from the read size on are untouched, and for 16-bit
    samples the conversion is exact. *)
Theorem process_copies_input_block (g : globals) plan in_buff out_buff in_pos
    out_pos ms :
  call_ok g plan in_buff in_pos ->
  exists g' plan',
    algo_masking in_buff out_buff in_pos out_pos ms g = Ok (out_buff, g') /\
    real_fft_plan g' = Some plan' /\
    size plan' = size plan /\
    length (input plan') = length (input plan) /\
    (forall i v, 0 <= i < s_algo_template_read_size g ->
       in_buff !! Z.to_nat (in_pos + i) = Some v ->
       input plan' !! Z.to_nat i = Some (float_of_int v) /\
       (0 <= v < 65536 -> integer_value (float_of_int v) = Some v)) /\
    (forall j, s_algo_template_read_size g <= Z.of_nat j ->
       input plan' !! j = input plan !! j).
Proof.
  intros (Hplan & Hpos & Hin & Hinp & Hout).
  destruct (copy_loop_content in_buff in_pos
              (seqZ 0 (s_algo_template_read_size g)) g plan Hplan)
    as (inp & Hlen & Hcopy & Hcopied & Hrest).
  { intros i Hi. apply list_elem_of_In, elem_of_seqZ in Hi. lia. }
  pose proof (algo_masking_after_copy g plan inp in_buff out_buff in_pos
                out_pos ms Hplan Hout Hcopy) as Hrun.
  cbv zeta in Hrun. set (st := fold_left _ _ _) in Hrun.
  eexists. exists (set_input inp plan). split; [exact Hrun |].
  split; [destruct g; reflexivity |].
  split; [reflexivity |]. split; [exact Hlen |].
  split.
  - intros i v Hi Hv. split.
    + apply Hcopied; [| exact Hv]. apply list_elem_of_In, elem_of_seqZ. lia.
    + apply float_of_sample_exact.
  - intros j Hj. apply Hrest. intros i Hi.
    apply list_elem_of_In, elem_of_seqZ in Hi. lia.
Qed.

Lemma process_copies_input_block_witness :
  exists g' plan',
    algo_masking in8 out8 0 0 1 m0 = Ok (out8, g') /\
    real_fft_plan g' = Some plan' /\
    input plan' !! 2%nat = Some (float_of_int 300).
Proof.
  destruct (process_copies_input_block m0 plan8 in8 out8 0 0 1 m0_call_ok)
    as (g' & plan' & Hrun & Hplan & _ & _ & Hcopied & _).
  exists g', plan'. split; [exact Hrun |]. split; [exact Hplan |].
  exact (proj1 (Hcopied 2 300 ltac:(simpl; lia) eq_refl)).
Defined.


(** ** Calls that cannot be served *)

(** X8. Without a plan ([real_fft_plan] is [NULL]) every [process] call
    faults, whatever its arguments and the read size: with nothing to copy
    the loop over the bins is the first to go through the pointer. *)
Theorem process_without_plan_faults (g : globals) in_buff out_buff in_pos
    out_pos ms :
  real_fft_plan g = None ->
  algo_masking in_buff out_buff in_pos out_pos ms g = Fault NullDereference.
Proof.
  intros Hplan. unfold algo_masking.
  unfold m_bind at 1. unfold m_get at 1. unfold m_bind at 1.
  destruct (seqZ 0 (s_algo_template_read_size g)) as [| i ks].
  - simpl. unfold m_ret, m_bind at 1, m_get at 1, m_bind at 1.
    rewrite Hplan. reflexivity.
  - simpl. unfold m_bind at 1. unfold copy_sample.
    unfold m_bind at 1. unfold m_get at 1. unfold m_bind at 1.
    rewrite Hplan. reflexivity.
Qed.

Lemma process_without_plan_faults_witness :
  algo_masking in8 out8 0 0 1 (static_init None) = Fault NullDereference.
Proof.
  exact (process_without_plan_faults (static_init None) in8 out8 0 0 1 eq_refl).
Defined.

Lemma arr_load_fault {A} (l : list A) i f :
  arr_load l i = Fault f -> f = OutOfBounds.
Proof.
  unfold arr_load. destruct (in_bounds l i); [| congruence].
  destruct (l !! Z.to_nat i); congruence.
Qed.

Lemma arr_store_fault {A} (l : list A) i v f :
  arr_store l i v = Fault f -> f = OutOfBounds.
Proof. unfold arr_store. destruct (in_bounds l i); congruence. Qed.

Lemma arr_store_length {A} (l l' : list A) i v :
  arr_store l i v = Ok l' -> length l' = length l /\ in_bounds l i = true.
Proof.
  unfold arr_store. destruct (in_bounds l i); [| discriminate].
  intros H. inversion H. rewrite length_insert. auto.
Qed.

(** One copy step either runs out of bounds or replaces the input array by
    one of the same length. *)
Lemma copy_sample_cases in_buff in_pos i (g : globals) plan :
  real_fft_plan g = Some plan ->
  copy_sample in_buff in_pos i g = Fault OutOfBounds \/
  exists inp,
    length inp = length (input plan) /\
    in_bounds (input plan) i = true /\
    copy_sample in_buff in_pos i g =
      Ok (tt, set_plan (Some (set_input inp plan)) g).
Proof.
  intros Hplan. unfold copy_sample.
  destruct g as [rs sf tt0 mm ff sp sv pl cs], plan as [sz inp0 out0].
  simpl in *. subst pl. run_masking.
  destruct (arr_load in_buff (in_pos + i)) as [v | f] eqn:Hload.
  - destruct (arr_store inp0 i (float_of_int v)) as [inp | f] eqn:Hstore.
    + right. exists inp. destruct (arr_store_length _ _ _ _ Hstore) as [Hl Hb].
      split; [exact Hl |]. split; [exact Hb | reflexivity].
    + left. rewrite (arr_store_fault _ _ _ _ Hstore). reflexivity.
  - left. rewrite (arr_load_fault _ _ _ Hload). reflexivity.
Qed.

(** A copy loop that is asked for an index outside the plan's input array
    runs out of bounds. *)
Lemma copy_loop_overrun in_buff in_pos (ks : list Z) :
  forall (g : globals) plan,
    real_fft_plan g = Some plan ->
    (exists i, In i ks /\ in_bounds (input plan) i = false) ->
    for_each ks (copy_sample in_buff in_pos) g = Fault OutOfBounds.
Proof.
  induction ks as [| k ks IH]; intros g plan Hplan (i & Hi & Hout).
  - destruct Hi.
  - simpl. unfold m_bind at 1.
    destruct (copy_sample_cases in_buff in_pos k g plan Hplan)
      as [Hf | (inp & Hlen & Hb & Hrun)].
    + rewrite Hf. reflexivity.
    + rewrite Hrun. destruct Hi as [-> | Hi]; [congruence |].
      apply (IH _ (set_input inp plan)).
      * destruct g; reflexivity.
      * exists i. split; [exact Hi |].
        unfold in_bounds in *. simpl. rewrite Hlen. exact Hout.
Qed.

(** X9. [algo_masking_init] changes the read size but not the plan the
    [process] calls use: after an [init] whose read size exceeds the length
    of the plan's input array, the next [process] call runs out of bounds,
    whatever input buffer it is given. *)
Theorem init_beyond_plan_overruns (g : globals) plan params in_buff out_buff
    in_pos out_pos ms :
  real_fft_plan g = Some plan ->
  Z.of_nat (length (input plan)) < read_size params ->
  (algo_masking_init params ;;;
   algo_masking in_buff out_buff in_pos out_pos ms) g = Fault OutOfBounds.
Proof.
  intros Hplan Hlen.
  set (g1 := record_call (Call_fft_init (read_size params))
               (set_period (period params)
                  (set_read_size (read_size params) g))).
  assert (Hinit : algo_masking_init params g = Ok (tt, g1))
    by (destruct g; reflexivity).
  unfold m_bind at 1. rewrite Hinit.
  assert (Hplan1 : real_fft_plan g1 = Some plan) by (destruct g; exact Hplan).
  assert (Hrs : s_algo_template_read_size g1 = read_size params)
    by (destruct g; reflexivity).
  unfold algo_masking. unfold m_bind at 1. unfold m_get at 1.
  unfold m_bind at 1. rewrite Hrs.
  rewrite (copy_loop_overrun in_buff in_pos _ g1 plan Hplan1); [reflexivity |].
  exists (Z.of_nat (length (input plan))). split.
  - apply list_elem_of_In, elem_of_seqZ. lia.
  - unfold in_bounds. apply andb_false_iff. right. apply Z.ltb_ge. lia.
Qed.

Lemma init_beyond_plan_overruns_witness :
  (algo_masking_init {| read_size := 9; period := 30 |} ;;;
   algo_masking (in8 ++ [900]) out8 0 0 1) m1 = Fault OutOfBounds.
Proof.
  exact (init_beyond_plan_overruns m1 (set_input (map float_of_int in8) plan8)
           {| read_size := 9; period := 30 |} (in8 ++ [900]) out8 0 0 1
           ltac:(vm_compute; reflexivity) ltac:(simpl; lia)).
Defined.

(** ** Calls after the first *)

Lemma mag_of_output (p1 p2 : fft_config_t) k :
  output p1 = output p2 -> mag_of p1 k = mag_of p2 k.
Proof. intros H. unfold mag_of. rewrite H. reflexivity. Qed.

(** A peak that no bin exceeds is left alone by the fold. *)
Lemma peak_fold_stable (plan : fft_config_t) (T m f : spec_float) (ks : list Z) :
  (forall k, In k ks -> f_gt (mag_of plan k) m = false) ->
  fold_left (peak_step plan T) ks (m, f) = (m, f).
Proof.
  induction ks as [| k ks IH]; intros Hle; [reflexivity |].
  simpl. unfold peak_step at 2. simpl.
  rewrite (Hle k (or_introl eq_refl)). apply IH.
  intros k' Hk'. apply Hle. right. exact Hk'.
Qed.

(** Calls on a peak that no bin exceeds change neither the peak nor the
    frequency. *)
Lemma process_all_stable (cs : list process_args) :
  forall (g : globals) plan,
    real_fft_plan g = Some plan ->
    s_algo_template_read_size g <= Z.of_nat (length (input plan)) ->
    size plan <= Z.of_nat (length (output plan)) ->
    Forall (args_ok (s_algo_template_read_size g)) cs ->
    (forall k, 1 <= k < Z.quot (size plan) 2 ->
       f_gt (mag_of plan k) (s_algo_max_magnitude g) = false) ->
    exists g' plan',
      process_all cs g = Ok (tt, g') /\
      s_algo_max_magnitude g' = s_algo_max_magnitude g /\
      s_algo_fundamental_freq g' = s_algo_fundamental_freq g /\
      real_fft_plan g' = Some plan' /\
      output plan' = output plan /\
      length (calls g') = (length (calls g) + length cs)%nat.
Proof.
  induction cs as [| c cs IH]; intros g plan Hplan Hinp Hout Hargs Hle.
  - exists g, plan. simpl. rewrite Nat.add_0_r. auto 6.
  - inversion Hargs as [| c' cs' [Hc0 Hc1] Hcs]; subst.
    destruct (algo_masking_run g plan (pa_in_buff c) (pa_out_buff c)
                (pa_in_pos c) (pa_out_pos c) (pa_multisamples c))
      as (inp & Hlen & Hrun).
    { unfold call_ok. auto. }
    cbv zeta in Hrun. rewrite peak_fold_stable in Hrun.
    2:{ intros k Hk. apply list_elem_of_In, elem_of_seqZ in Hk.
        apply Hle. lia. }
    simpl in Hrun. set (g1 := record_call _ _) in Hrun.
    destruct (IH g1 (set_input inp plan)) as (g' & plan' & Hall & Hm & Hf & Hp & Ho & Hcalls).
    + destruct g; reflexivity.
    + simpl. rewrite Hlen. destruct g; exact Hinp.
    + exact Hout.
    + replace (s_algo_template_read_size g1)
        with (s_algo_template_read_size g) by (destruct g; reflexivity).
      exact Hcs.
    + intros k Hk.
      rewrite (mag_of_output (set_input inp plan) plan k eq_refl).
      replace (s_algo_max_magnitude g1) with (s_algo_max_magnitude g)
        by (destruct g; reflexivity).
      apply Hle. exact Hk.
    + exists g', plan'.
      split; [simpl; unfold m_bind at 1; rewrite Hrun; exact Hall |].
      split; [rewrite Hm; destruct g; reflexivity |].
      split; [rewrite Hf; destruct g; reflexivity |].
      split; [exact Hp |]. split; [exact Ho |].
      rewrite Hcalls. replace (length (calls g1)) with (S (length (calls g))).
      * simpl. lia.
      * destruct g; simpl. rewrite length_app. simpl. lia.
Qed.

(** X10. Since no call rewrites the plan's output array, only the first of
    a run of [process] calls can move the peak: every later call, on
    whatever input block, leaves the peak magnitude and the fundamental
    frequency as the first call set them (and logs once). *)
Theorem later_calls_keep_the_peak (g : globals) plan (c : process_args)
    (cs : list process_args) :
  real_fft_plan g = Some plan ->
  s_algo_template_read_size g <= Z.of_nat (length (input plan)) ->
  size plan <= Z.of_nat (length (output plan)) ->
  Forall (args_ok (s_algo_template_read_size g)) (c :: cs) ->
  exists g1 g',
    algo_masking (pa_in_buff c) (pa_out_buff c) (pa_in_pos c) (pa_out_pos c)
      (pa_multisamples c) g = Ok (pa_out_buff c, g1) /\
    process_all (c :: cs) g = Ok (tt, g') /\
    s_algo_max_magnitude g' = s_algo_max_magnitude g1 /\
    s_algo_fundamental_freq g' = s_algo_fundamental_freq g1 /\
    length (calls g') = (length (calls g) + S (length cs))%nat.
Proof.
  intros Hplan Hinp Hout Hargs.
  inversion Hargs as [| c' cs' [Hc0 Hc1] Hcs]; subst.
  assert (Hok : call_ok g plan (pa_in_buff c) (pa_in_pos c))
    by (unfold call_ok; auto).
  destruct (algo_masking_run g plan (pa_in_buff c) (pa_out_buff c)
              (pa_in_pos c) (pa_out_pos c) (pa_multisamples c) Hok)
    as (inp & Hlen & Hrun).
  cbv zeta in Hrun. rewrite seqZ_to_nat in Hrun.
  set (n := Z.to_nat (Z.quot (size plan) 2 - 1)) in *.
  destruct (peak_fold_inv plan (s_algo_total_time g) (s_algo_max_magnitude g)
              (s_algo_fundamental_freq g) n) as [Hle _].
  set (st := fold_left _ _ _) in *. set (g1 := record_call _ _) in Hrun.
  destruct (process_all_stable cs g1 (set_input inp plan))
    as (g' & plan' & Hall & Hm & Hf & _ & _ & Hcalls).
  - destruct g; reflexivity.
  - simpl. rewrite Hlen. destruct g; exact Hinp.
  - exact Hout.
  - replace (s_algo_template_read_size g1)
      with (s_algo_template_read_size g) by (destruct g; reflexivity).
    exact Hcs.
  - intros k Hk.
    rewrite (mag_of_output (set_input inp plan) plan k eq_refl).
    replace (s_algo_max_magnitude g1) with (fst st) by (destruct g; reflexivity).
    simpl in Hk. apply Hle. unfold n. lia.
  - exists g1, g'. split; [exact Hrun |].
    split; [simpl; unfold m_bind at 1; rewrite Hrun; exact Hall |].
    split; [exact Hm |]. split; [exact Hf |].
    rewrite Hcalls. replace (length (calls g1)) with (S (length (calls g))).
    + lia.
    + destruct g; simpl. rewrite length_app. simpl. lia.
Qed.

Lemma later_calls_keep_the_peak_witness :
  exists g',
    process_all
      [{| pa_in_buff := in8; pa_out_buff := out8; pa_in_pos := 0;
          pa_out_pos := 0; pa_multisamples := 1 |};
       {| pa_in_buff := replicate 8 4095; pa_out_buff := out8; pa_in_pos := 0;
          pa_out_pos := 0; pa_multisamples := 1 |}] m0 = Ok (tt, g') /\
    s_algo_max_magnitude g' = s_algo_max_magnitude m1.
Proof.
  destruct (later_calls_keep_the_peak m0 plan8
              {| pa_in_buff := in8; pa_out_buff := out8; pa_in_pos := 0;
                 pa_out_pos := 0; pa_multisamples := 1 |}
              [{| pa_in_buff := replicate 8 4095; pa_out_buff := out8;
                  pa_in_pos := 0; pa_out_pos := 0; pa_multisamples := 1 |}]
              eq_refl ltac:(simpl; lia) ltac:(simpl; lia)
              ltac:(repeat constructor; simpl; lia))
    as (g1 & g' & Hrun & Hall & Hm & _).
  exists g'. split; [exact Hall |].
  rewrite Hm.
  assert (Hm1 : algo_masking in8 out8 0 0 1 m0 = Ok (out8, m1))
    by (vm_compute; reflexivity).
  cbn [pa_in_buff pa_out_buff pa_in_pos pa_out_pos pa_multisamples] in Hrun.
  rewrite Hm1 in Hrun.
  exact (f_equal (fun r => match r with
                           | Ok (_, s) => s_algo_max_magnitude s
                           | Fault _ => f_zero
                           end) (eq_sym Hrun)).
Defined.


(** ** The bins the scan reads *)

(** X16. A plan of fewer than four points has no bin in [1, size/2): a
    [process] call on it copies and logs but leaves the peak magnitude and
    the fundamental frequency as they are. *)
Theorem small_plan_keeps_the_peak (g : globals) plan in_buff out_buff in_pos
    out_pos ms :
  call_ok g plan in_buff in_pos ->
  size plan < 4 ->
  exists g',
    algo_masking in_buff out_buff in_pos out_pos ms g = Ok (out_buff, g') /\
    s_algo_max_magnitude g' = s_algo_max_magnitude g /\
    s_algo_fundamental_freq g' = s_algo_fundamental_freq g.
Proof.
  intros Hok Hsmall.
  destruct (algo_masking_run g plan in_buff out_buff in_pos out_pos ms Hok)
    as (inp & _ & Hrun).
  cbv zeta in Hrun. rewrite seqZ_nil in Hrun.
  - simpl in Hrun. eexists. split; [exact Hrun |].
    destruct g; split; reflexivity.
  - assert (Z.quot (size plan) 2 <= 1); [| lia].
    destruct (Z.le_gt_cases 0 (size plan)) as [Hpos | Hneg].
    + rewrite Z.quot_div_nonneg by lia.
      assert (size plan / 2 < 2); [| lia].
      apply Z.div_lt_upper_bound; lia.
    + replace (size plan) with (- (- size plan)) by lia.
      rewrite Z.quot_opp_l by lia.
      pose proof (Z.quot_pos (- size plan) 2). lia.
Qed.

Lemma small_plan_keeps_the_peak_witness :
  exists g',
    algo_masking [5; 6; 7] [9; 9; 9] 0 0 1
      (set_read_size 3
         (static_init (Some {| size := 3; input := replicate 3 f_zero;
                               output := map float_of_int [1; 2; 3] |})))
      = Ok ([9; 9; 9], g') /\
    s_algo_max_magnitude g' = f_zero.
Proof.
  destruct (small_plan_keeps_the_peak
              (set_read_size 3
                 (static_init (Some {| size := 3; input := replicate 3 f_zero;
                                       output := map float_of_int [1; 2; 3] |})))
              {| size := 3; input := replicate 3 f_zero;
                 output := map float_of_int [1; 2; 3] |}
              [5; 6; 7] [9; 9; 9] 0 0 1)
    as (g' & Hrun & Hm & _).
  - unfold call_ok. simpl. repeat split; try reflexivity; lia.
  - simpl. lia.
  - exists g'. split; [exact Hrun | exact Hm].
Defined.

Lemma fold_left_ext_in {A B} (f1 f2 : A -> B -> A) (l : list B) :
  (forall a b, In b l -> f1 a b = f2 a b) ->
  forall a, fold_left f1 l a = fold_left f2 l a.
Proof.
  induction l as [| b l IH]; intros Hext a; [reflexivity |].
  simpl. rewrite (Hext a b (or_introl eq_refl)).
  apply IH. intros a' b' Hb'. apply Hext. right. exact Hb'.
Qed.

Lemma mag_of_agree (p1 p2 : fft_config_t) k :
  1 <= k ->
  length (output p1) = length (output p2) ->
  (forall j, (2 <= j)%nat -> output p1 !! j = output p2 !! j) ->
  mag_of p1 k = mag_of p2 k.
Proof.
  intros Hk Hlen Hagree. unfold mag_of, bin_magnitude, arr_load, in_bounds.
  rewrite Hlen, !Hagree by lia. reflexivity.
Qed.

(** X17. The scan starts at bin 1: the first two entries of the plan's
    output array (the real and imaginary part of bin 0, the constant
    component) are never read.  Two plans that differ in those two entries
    only lead a [process] call to the same peak magnitude and the same
    fundamental frequency. *)
Theorem dc_bin_is_ignored (g : globals) p1 p2 in_buff out_buff in_pos out_pos
    ms :
  call_ok g p1 in_buff in_pos ->
  size p2 = size p1 ->
  input p2 = input p1 ->
  length (output p2) = length (output p1) ->
  (forall j, (2 <= j)%nat -> output p2 !! j = output p1 !! j) ->
  exists g1 g2,
    algo_masking in_buff out_buff in_pos out_pos ms g = Ok (out_buff, g1) /\
    algo_masking in_buff out_buff in_pos out_pos ms (set_plan (Some p2) g)
      = Ok (out_buff, g2) /\
    s_algo_max_magnitude g2 = s_algo_max_magnitude g1 /\
    s_algo_fundamental_freq g2 = s_algo_fundamental_freq g1.
Proof.
  intros Hok Hsize Hinput Hlen Hagree.
  assert (Hok2 : call_ok (set_plan (Some p2) g) p2 in_buff in_pos).
  { destruct Hok as (Hplan & Hpos & Hin & Hinp & Hout).
    unfold call_ok. rewrite Hsize, Hinput, Hlen.
    destruct g; simpl in *. auto. }
  destruct (algo_masking_run g p1 in_buff out_buff in_pos out_pos ms Hok)
    as (inp1 & _ & Hrun1).
  destruct (algo_masking_run _ p2 in_buff out_buff in_pos out_pos ms Hok2)
    as (inp2 & _ & Hrun2).
  cbv zeta in Hrun1, Hrun2.
  assert (Hfold :
    fold_left (peak_step p2 (s_algo_total_time (set_plan (Some p2) g)))
      (seqZ 1 (Z.quot (size p2) 2 - 1))
      (s_algo_max_magnitude (set_plan (Some p2) g),
       s_algo_fundamental_freq (set_plan (Some p2) g)) =
    fold_left (peak_step p1 (s_algo_total_time g))
      (seqZ 1 (Z.quot (size p1) 2 - 1))
      (s_algo_max_magnitude g, s_algo_fundamental_freq g)).
  { rewrite Hsize.
    replace (s_algo_total_time (set_plan (Some p2) g))
      with (s_algo_total_time g) by (destruct g; reflexivity).
    replace (s_algo_max_magnitude (set_plan (Some p2) g))
      with (s_algo_max_magnitude g) by (destruct g; reflexivity).
    replace (s_algo_fundamental_freq (set_plan (Some p2) g))
      with (s_algo_fundamental_freq g) by (destruct g; reflexivity).
    apply fold_left_ext_in. intros st k Hk.
    apply list_elem_of_In, elem_of_seqZ in Hk.
    unfold peak_step.
    rewrite (mag_of_agree p2 p1 k ltac:(lia) Hlen Hagree). reflexivity. }
  rewrite Hfold in Hrun2.
  do 2 eexists. split; [exact Hrun1 |]. split; [exact Hrun2 |].
  destruct g; split; reflexivity.
Qed.

Lemma dc_bin_is_ignored_witness :
  exists g1 g2,
    algo_masking in8 out8 0 0 1 m0 = Ok (out8, g1) /\
    algo_masking in8 out8 0 0 1
      (set_plan (Some {| size := 8; input := replicate 8 f_zero;
                         output := map float_of_int [500; 500; 3; 4; 1; 1; 6; 8] |})
         m0) = Ok (out8, g2) /\
    s_algo_max_magnitude g2 = s_algo_max_magnitude g1.
Proof.
  destruct (dc_bin_is_ignored m0 plan8
              {| size := 8; input := replicate 8 f_zero;
                 output := map float_of_int [500; 500; 3; 4; 1; 1; 6; 8] |}
              in8 out8 0 0 1 m0_call_ok eq_refl eq_refl eq_refl)
    as (g1 & g2 & H1 & H2 & Hm & _).
  - intros [| [| j]] Hj; try lia. reflexivity.
  - exists g1, g2. auto.
Defined.


End MaskingProperties.

(** * Properties of the packet finder *)

Section SerialProperties.
Import Serial.

Lemma d_lookup (dp : Z) :
  0 <= dp <= 3 -> exists dc, d !! Z.to_nat dp = Some dc /\ arr_load d dp = Ok dc.
Proof.
  intros Hdp.
  assert (dp = 0 \/ dp = 1 \/ dp = 2 \/ dp = 3) as [-> | [-> | [-> | ->]]] by lia;
    eexists; split; reflexivity.
Qed.

(** The loop from index [i] on, having matched the [dp] characters before
    [i]: it returns, and what it returns is the start of four characters
    that spell DATA. *)
Lemma find_loop_sound (data : list char) (n : nat) :
  forall i dp,
    0 <= dp <= 3 -> dp <= i ->
    i + Z.of_nat n <= Z.of_nat (length data) ->
    (forall j, 0 <= j < dp ->
       data !! Z.to_nat (i - dp + j) = d !! Z.to_nat j) ->
    exists r,
      find_loop data (seqZ i (Z.of_nat n)) dp = Ok r /\
      match r with
      | Some p => p + 4 <= i + Z.of_nat n /\ data_at data p
      | None => True
      end.
Proof.
  induction n as [| n IH]; intros i dp Hdp Hi Hlen Hpre.
  - exists None. split; reflexivity.
  - rewrite seqZ_cons by lia. cbn [find_loop].
    destruct (lookup_lt_is_Some_2 data (Z.to_nat i)) as [c Hc]; [lia |].
    rewrite (arr_load_ok data i c) by (try lia; exact Hc).
    destruct (d_lookup dp Hdp) as (dc & Hdc & Hload). rewrite Hload.
    cbn [r_bind].
    replace (Z.pred (Z.of_nat (S n))) with (Z.of_nat n) by lia.
    destruct (c =? dc) eqn:Heq.
    + apply Z.eqb_eq in Heq. subst dc.
      assert (Hext : forall j, 0 <= j < dp + 1 ->
                data !! Z.to_nat (Z.succ i - (dp + 1) + j) = d !! Z.to_nat j).
      { intros j Hj. destruct (Z.eq_dec j dp) as [-> | Hne].
        - replace (Z.succ i - (dp + 1) + dp) with i by lia. congruence.
        - replace (Z.succ i - (dp + 1) + j) with (i - dp + j) by lia.
          apply Hpre. lia. }
      destruct (dp + 1 =? 4) eqn:Hfour.
      * apply Z.eqb_eq in Hfour. exists (Some (i - 3)).
        split; [reflexivity |]. split; [lia |].
        split; [lia |]. intros j Hj.
        replace (i - 3 + j) with (Z.succ i - (dp + 1) + j) by lia.
        apply Hext. lia.
      * apply Z.eqb_neq in Hfour.
        destruct (IH (Z.succ i) (dp + 1)) as (r & Hr & Hp);
          [lia | lia | lia | exact Hext |].
        exists r. split; [exact Hr |].
        destruct r as [p |]; [| exact I]. destruct Hp. split; [lia | assumption].
    + replace (0 =? 4) with false by reflexivity.
      destruct (IH (Z.succ i) 0) as (r & Hr & Hp); [lia | lia | lia | |].
      { intros j Hj. lia. }
      exists r. split; [exact Hr |].
      destruct r as [p |]; [| exact I]. destruct Hp. split; [lia | assumption].
Qed.

(** X11. On a buffer of at least [size] characters [find_data_string]
    returns, and a pointer it returns is the start of four characters DATA
    that lie wholly inside the first [size] characters; so it returns [NULL]
    whenever DATA does not occur there, in particular when [size] is below
    four. *)
Theorem find_data_string_sound (data : list char) (size : Z) :
  size <= Z.of_nat (length data) ->
  exists r,
    find_data_string data size = Ok r /\
    (forall p, r = Some p -> 0 <= p /\ p + 4 <= size /\ data_at data p) /\
    ((forall p, p + 4 <= size -> ~ data_at data p) -> r = None) /\
    (size < 4 -> r = None).
Proof.
  intros Hlen. unfold find_data_string. rewrite seqZ_to_nat.
  destruct (find_loop_sound data (Z.to_nat size) 0 0) as (r & Hr & Hp);
    [lia | lia | lia | intros j Hj; lia |].
  exists r. split; [exact Hr |].
  assert (Hsome : forall p, r = Some p ->
            0 <= p /\ p + 4 <= size /\ data_at data p).
  { intros p ->. destruct Hp as [Hb Hat]. pose proof Hat as [Hp0 _].
    split; [exact Hp0 |]. split; [lia | exact Hat]. }
  split; [exact Hsome |]. split.
  - intros Hnone. destruct r as [p |]; [| reflexivity].
    destruct (Hsome p eq_refl) as (_ & Hb & Hat).
    destruct (Hnone p Hb Hat).
  - intros Hshort. destruct r as [p |]; [| reflexivity].
    destruct (Hsome p eq_refl) as (Hp0 & Hb & _). lia.
Qed.

Lemma find_data_string_sound_witness :
  find_data_string (map chr ["x"; "D"; "A"; "T"; "A"; "y"]%char) 6 = Ok (Some 1).
Proof.
  destruct (find_data_string_sound (map chr ["x"; "D"; "A"; "T"; "A"; "y"]%char) 6
              ltac:(simpl; lia)) as (r & Hr & _).
  rewrite Hr. f_equal. vm_compute in Hr. congruence.
Defined.

(** Characters other than D leave the finder where it starts. *)
Lemma find_loop_skip (data : list char) (n : nat) :
  forall i rest,
    0 <= i ->
    (forall j, i <= j < i + Z.of_nat n ->
       exists c, data !! Z.to_nat j = Some c /\ c <> chr "D"%char) ->
    find_loop data (seqZ i (Z.of_nat n) ++ rest) 0 = find_loop data rest 0.
Proof.
  induction n as [| n IH]; intros i rest Hi Hfree; [reflexivity |].
  rewrite seqZ_cons by lia. cbn [app find_loop].
  destruct (Hfree i ltac:(lia)) as (c & Hc & HnD).
  rewrite (arr_load_ok data i c) by (try lia; exact Hc).
  change (arr_load d 0) with (@Ok char (chr "D"%char)). cbn [r_bind].
  apply Z.eqb_neq in HnD. rewrite HnD.
  replace (0 =? 4) with false by reflexivity.
  replace (Z.pred (Z.of_nat (S n))) with (Z.of_nat n) by lia.
  apply IH; [lia |]. intros j Hj. apply Hfree. lia.
Qed.

Lemma seqZ_split (size p : Z) :
  0 <= p <= size ->
  seqZ 0 size = seqZ 0 (Z.of_nat (Z.to_nat p)) ++ seqZ p (size - p).
Proof.
  intros Hp. rewrite Z2Nat.id by lia.
  replace size with (p + (size - p)) at 1 by lia.
  rewrite seqZ_app by lia. reflexivity.
Qed.

(** One step of the loop on a character that continues the match, and on
    one that breaks it. *)
Lemma find_loop_match (data : list char) i dp rest :
  0 <= i -> 0 <= dp <= 3 ->
  data !! Z.to_nat i = d !! Z.to_nat dp ->
  find_loop data (i :: rest) dp =
    if dp =? 3 then Ok (Some (i - 3)) else find_loop data rest (dp + 1).
Proof.
  intros Hi Hdp Hc. cbn [find_loop].
  destruct (d_lookup dp Hdp) as (dc & Hdc & Hload).
  rewrite (arr_load_ok data i dc) by (try lia; exact (eq_trans Hc Hdc)).
  rewrite Hload. cbn [r_bind]. rewrite Z.eqb_refl.
  destruct (dp =? 3) eqn:H3.
  - apply Z.eqb_eq in H3. subst dp. reflexivity.
  - apply Z.eqb_neq in H3.
    replace (dp + 1 =? 4) with false by (symmetry; apply Z.eqb_neq; lia).
    reflexivity.
Qed.

Lemma find_loop_mismatch (data : list char) i c dp rest :
  0 <= i -> 0 <= dp <= 3 ->
  data !! Z.to_nat i = Some c ->
  d !! Z.to_nat dp <> Some c ->
  find_loop data (i :: rest) dp = find_loop data rest 0.
Proof.
  intros Hi Hdp Hc Hne. cbn [find_loop].
  destruct (d_lookup dp Hdp) as (dc & Hdc & Hload).
  rewrite (arr_load_ok data i c) by (try lia; exact Hc).
  rewrite Hload. cbn [r_bind].
  replace (c =? dc) with false.
  - reflexivity.
  - symmetry. apply Z.eqb_neq. intros ->. apply Hne. exact Hdc.
Qed.

(** X12. A packet header is found where it starts provided no D precedes
    it: if the characters before offset [p] are all different from D and
    DATA stands at [p], inside the first [size] characters, then
    [find_data_string] returns the pointer to offset [p]. *)
Theorem find_data_string_after_junk (data : list char) (size p : Z) :
  0 <= p -> p + 4 <= size ->
  (forall j, 0 <= j < p ->
     exists c, data !! Z.to_nat j = Some c /\ c <> chr "D"%char) ->
  data_at data p ->
  find_data_string data size = Ok (Some p).
Proof.
  intros Hp Hsize Hfree [_ Hat].
  unfold find_data_string. rewrite (seqZ_split size p) by lia.
  rewrite find_loop_skip; [| lia | intros j Hj; apply Hfree; lia].
  pose proof (Hat 0 ltac:(lia)) as H0. pose proof (Hat 1 ltac:(lia)) as H1.
  pose proof (Hat 2 ltac:(lia)) as H2. pose proof (Hat 3 ltac:(lia)) as H3.
  rewrite Z.add_0_r in H0.
  rewrite seqZ_cons by lia.
  rewrite (find_loop_match data p 0 _ Hp ltac:(lia) H0).
  rewrite seqZ_cons by lia. replace (Z.succ p) with (p + 1) by lia.
  rewrite (find_loop_match data (p + 1) 1 _ ltac:(lia) ltac:(lia) H1).
  rewrite seqZ_cons by lia. replace (Z.succ (p + 1)) with (p + 2) by lia.
  rewrite (find_loop_match data (p + 2) 2 _ ltac:(lia) ltac:(lia) H2).
  rewrite seqZ_cons by lia. replace (Z.succ (p + 2)) with (p + 3) by lia.
  rewrite (find_loop_match data (p + 3) 3 _ ltac:(lia) ltac:(lia) H3).
  cbn [Z.eqb Z.add Pos.eqb Pos.add Pos.succ]. do 2 f_equal. lia.
Qed.

Lemma find_data_string_after_junk_witness :
  find_data_string (map chr ["x"; "y"; "D"; "A"; "T"; "A"; "D"; "A"]%char) 8
    = Ok (Some 2).
Proof.
  apply (find_data_string_after_junk _ 8 2); try lia.
  - intros j Hj. assert (j = 0 \/ j = 1) as [-> | ->] by lia;
      eexists; (split; [reflexivity | discriminate]).
  - split; [lia |]. intros j Hj.
    assert (j = 0 \/ j = 1 \/ j = 2 \/ j = 3) as [-> | [-> | [-> | ->]]] by lia;
      reflexivity.
Defined.

(** X13. A header that directly follows a stray D is missed: the finder
    takes the D for the start of a header, drops it at the next character,
    and does not look at that character again.  With no D before offset
    [p], a D at [p] and DATA at [p + 1], a search of the [p + 5] characters
    returns [NULL]. *)
Theorem find_data_string_misses_after_D (data : list char) (p : Z) :
  0 <= p ->
  (forall j, 0 <= j < p ->
     exists c, data !! Z.to_nat j = Some c /\ c <> chr "D"%char) ->
  data !! Z.to_nat p = Some (chr "D"%char) ->
  data_at data (p + 1) ->
  find_data_string data (p + 5) = Ok None.
Proof.
  intros Hp Hfree HD [_ Hat].
  unfold find_data_string. rewrite (seqZ_split (p + 5) p) by lia.
  rewrite find_loop_skip; [| lia | intros j Hj; apply Hfree; lia].
  pose proof (Hat 0 ltac:(lia)) as H0. pose proof (Hat 1 ltac:(lia)) as H1.
  pose proof (Hat 2 ltac:(lia)) as H2. pose proof (Hat 3 ltac:(lia)) as H3.
  rewrite Z.add_0_r in H0.
  replace (p + 1 + 1) with (p + 2) in H1 by lia.
  replace (p + 1 + 2) with (p + 3) in H2 by lia.
  replace (p + 1 + 3) with (p + 4) in H3 by lia.
  assert (HD1 : data !! Z.to_nat (p + 1) = Some (chr "D"%char)) by exact H0.
  assert (HA2 : data !! Z.to_nat (p + 2) = Some (chr "A"%char)) by exact H1.
  assert (HT3 : data !! Z.to_nat (p + 3) = Some (chr "T"%char)) by exact H2.
  assert (HA4 : data !! Z.to_nat (p + 4) = Some (chr "A"%char)) by exact H3.
  replace (p + 5 - p) with 5 by lia.
  rewrite seqZ_cons by lia.
  rewrite (find_loop_match data p 0 _ Hp ltac:(lia) HD).
  cbn [Z.eqb Z.add Pos.eqb Pos.add Pos.succ Z.pred Z.pos_sub Pos.pred_double].
  rewrite seqZ_cons by lia. replace (Z.succ p) with (p + 1) by lia.
  rewrite (find_loop_mismatch data (p + 1) _ 1 _ ltac:(lia) ltac:(lia) HD1)
    by discriminate.
  rewrite seqZ_cons by lia. replace (Z.succ (p + 1)) with (p + 2) by lia.
  rewrite (find_loop_mismatch data (p + 2) _ 0 _ ltac:(lia) ltac:(lia) HA2)
    by discriminate.
  rewrite seqZ_cons by lia. replace (Z.succ (p + 2)) with (p + 3) by lia.
  rewrite (find_loop_mismatch data (p + 3) _ 0 _ ltac:(lia) ltac:(lia) HT3)
    by discriminate.
  rewrite seqZ_cons by lia. replace (Z.succ (p + 3)) with (p + 4) by lia.
  rewrite (find_loop_mismatch data (p + 4) _ 0 _ ltac:(lia) ltac:(lia) HA4)
    by discriminate.
  reflexivity.
Qed.

Lemma find_data_string_misses_after_D_witness :
  find_data_string (map chr ["x"; "D"; "D"; "A"; "T"; "A"]%char) 6 = Ok None.
Proof.
  apply (find_data_string_misses_after_D _ 1); try lia.
  - intros j Hj. assert (j = 0) as -> by lia.
    eexists; (split; [reflexivity | discriminate]).
  - reflexivity.
  - split; [lia |]. intros j Hj.
    assert (j = 0 \/ j = 1 \/ j = 2 \/ j = 3) as [-> | [-> | [-> | ->]]] by lia;
      reflexivity.
Defined.

End SerialProperties.
